(** * Google Sheets integration: sheet writer and update processor

    A shallow embedding of
    [server/src/workflow-management/integrations/gsheet.ts]:
    the in-memory task registry [googleSheetUpdateTasks], the two sheet
    writer functions [updateGoogleSheet] and [writeDataToSheet], and the
    polling loop [processGoogleSheetUpdates].

    Conventions of the embedding.
    - JavaScript values that the code only inspects structurally (run
      outputs, rows) are terms of [jsval]; an object is the list of its own
      enumerable properties in property-enumeration order, so [Object.keys]
      and [Object.values] are the two projections of that list.
    - The run store, the robot store, the scripted behaviour of the external
      spreadsheet API and the observable trace (console and logger lines,
      append requests, sleeps) form a [World]; code that awaits and may
      throw lives in the monad [M].  Store lookups are total on the store:
      a lookup either finds a record or finds none.
    - The registry is kept apart from the [World]: neither sheet writer
      function mentions it, only the processor does.
    - No other task of the event loop is interleaved at an [await]. *)

From Stdlib Require Import ZArith Lia.
From stdpp Require Import base option list strings gmap pretty relations.

Local Open Scope string_scope.
Local Open Scope Z_scope.
Local Open Scope list_scope.

(** ** JavaScript values *)

#[local] Unset Elimination Schemes.
Inductive jsval : Type :=
| JUndefined
| JNull
| JBool (b : bool)
| JNum (n : Z)
| JStr (s : string)
| JArr (elems : list jsval)
| JObj (props : list (string * jsval)).
#[local] Set Elimination Schemes.

(** A thrown value: an [Error] object with its [message], or a nullish
    value (a promise may be rejected with [undefined] or [null]), on which
    reading [.message] is itself a [TypeError]. *)
Inductive thrown : Type :=
| ErrorObj (message : string)
| Nullish.

Inductive completion (A : Type) : Type :=
| Normal (a : A)
| Throw (e : thrown).
Arguments Normal {A} a.
Arguments Throw {A} e.

Definition TypeError (msg : string) : thrown := ErrorObj msg.

Definition is_nullish (v : jsval) : bool :=
  match v with
  | JUndefined | JNull => true
  | _ => false
  end.

(** [ToBoolean]. *)
Definition truthy (v : jsval) : bool :=
  match v with
  | JUndefined | JNull => false
  | JBool b => b
  | JNum n => negb (n =? 0)
  | JStr s => negb (String.eqb s "")
  | JArr _ | JObj _ => true
  end.

(** Truthiness of a [string | null] field. *)
Definition truthy_str (o : option string) : bool :=
  match o with
  | Some s => negb (String.eqb s "")
  | None => false
  end.

(** Own enumerable string-keyed properties, in enumeration order: those of
    an object as listed, the indices of an array, the indices of a
    string. *)
Definition own_props (v : jsval) : list (string * jsval) :=
  match v with
  | JObj props => props
  | JArr elems => imap (λ (i : nat) x, (pretty i, x)) elems
  | JStr s =>
      imap (λ (i : nat) c, (pretty i, JStr (String c EmptyString)))
           (String.list_ascii_of_string s)
  | _ => []
  end.

Fixpoint prop_lookup (k : string) (props : list (string * jsval)) : jsval :=
  match props with
  | [] => JUndefined
  | (k', v) :: rest => if String.eqb k' k then v else prop_lookup k rest
  end.

(** [Object.keys(v)] *)
Definition Object_keys (v : jsval) : completion (list string) :=
  if is_nullish v
  then Throw (TypeError "Cannot convert undefined or null to object")
  else Normal ((own_props v).*1).

(** [Object.values(v)] *)
Definition Object_values (v : jsval) : completion (list jsval) :=
  if is_nullish v
  then Throw (TypeError "Cannot convert undefined or null to object")
  else Normal ((own_props v).*2).

(** [v[k]] for an own-property key [k] (the code reads ["item-0"] and
    index [0] only). *)
Definition get_prop (v : jsval) (k : string) : completion jsval :=
  if is_nullish v
  then Throw (TypeError ("Cannot read properties of undefined (reading '" +:+ k +:+ "')"))
  else Normal (prop_lookup k (own_props v)).

(** ** Stores, external API and trace *)

Record Run : Type := {
  run_status : string;
  serializableOutput : jsval;
  binaryOutput : jsval
}.

Record GoogleSheets : Type := {
  email : option string;
  sheet_id : option string;
  sheet_name : option string;
  access_token : option string;
  refresh_token : option string
}.

(** [integrations]: the [google_sheets] sub-object (possibly absent) and
    the integration fields outside it. *)
Record Integrations : Type := {
  google_sheets : option GoogleSheets;
  other_integrations : list (string * jsval)
}.

Record Robot : Type := {
  integrations : option Integrations
}.

Record AppendRequest : Type := {
  spreadsheetId : string;
  range : string;
  valueInputOption : string;
  values : list (list jsval)
}.

(** The payload of a ["tokens"] event of the OAuth2 client. *)
Record Tokens : Type := {
  tokens_access_token : option string;
  tokens_refresh_token : option string
}.

(** What the spreadsheet API does on one append call: the ["tokens"]
    events it emits, then a response status or a rejection. *)
Record ApiOutcome : Type := {
  token_events : list Tokens;
  response : completion Z
}.

Inductive event : Type :=
| ConsoleLog (msg : string)
| ConsoleError (msg : string)
| ConsoleErrorThrown (msg : string) (error : thrown)
| ConsoleErrorResponse (msg : string) (status : Z)
| LoggerLog (level msg : string)
| Append (req : AppendRequest)
| Sleep (ms : Z).

Record World : Type := {
  runs : gmap string Run;
  robots : gmap string Robot;
  sheets_api : nat → AppendRequest → ApiOutcome;
  trace : list event
}.

Definition emit (e : event) (w : World) : World :=
  {| runs := runs w; robots := robots w; sheets_api := sheets_api w;
     trace := trace w ++ [e] |}.

Definition set_robots (rs : gmap string Robot) (w : World) : World :=
  {| runs := runs w; robots := rs; sheets_api := sheets_api w;
     trace := trace w |}.

Definition appends (tr : list event) : list AppendRequest :=
  omap (λ e, match e with Append r => Some r | _ => None end) tr.

(** ** The monad of awaiting, throwing code *)

Definition M (A : Type) : Type := World → World * completion A.

Definition ret {A} (a : A) : M A := λ w, (w, Normal a).
Definition throw {A} (e : thrown) : M A := λ w, (w, Throw e).
Definition bind {A B} (m : M A) (k : A → M B) : M B :=
  λ w, match m w with
       | (w', Normal a) => k a w'
       | (w', Throw e) => (w', Throw e)
       end.
Definition try_catch {A} (body : M A) (handler : thrown → M A) : M A :=
  λ w, match body w with
       | (w', Normal a) => (w', Normal a)
       | (w', Throw e) => handler e w'
       end.
Definition lift {A} (c : completion A) : M A := λ w, (w, c).
Definition tell (e : event) : M unit := λ w, (emit e w, Normal tt).

Declare Scope js_scope.
Delimit Scope js_scope with js.
Notation "'let*' x ':=' m 'in' k" := (bind m (λ x, k))
  (at level 10, x name, m at level 100, k at level 200) : js_scope.
Notation "m ';;' k" := (bind m (λ _, k))
  (at level 100, k at level 200, right associativity) : js_scope.

Fixpoint mapM {A B} (f : A → completion B) (l : list A) : completion (list B) :=
  match l with
  | [] => Normal []
  | x :: rest =>
      match f x with
      | Throw e => Throw e
      | Normal y =>
          match mapM f rest with
          | Throw e => Throw e
          | Normal ys => Normal (y :: ys)
          end
      end
  end.

(** [`${error.message}`]: a [TypeError] when [error] is nullish. *)
Definition error_message (error : thrown) : completion string :=
  match error with
  | ErrorObj message => Normal message
  | Nullish => Throw (TypeError "Cannot read properties of undefined (reading 'message')")
  end.

Definition Run_findOne (runId : string) : M (option Run) :=
  λ w, (w, Normal (runs w !! runId)).

Definition Robot_findOne (robotId : string) : M (option Robot) :=
  λ w, (w, Normal (robots w !! robotId)).

(** ** Sheet writer *)

(** The body of the ["tokens"] listener up to [robot.update]: the value of
    [updatedIntegrations] computed from [robot.integrations]. *)
Definition updatedIntegrations (current : option Integrations) (tokens : Tokens)
  : Integrations :=
  (* robot.integrations ? { ...robot.integrations } : {} *)
  let copy := default {| google_sheets := None; other_integrations := [] |} current in
  (* updatedIntegrations.google_sheets || { email: null, ... } *)
  let gs := default {| email := None; sheet_id := None; sheet_name := None;
                       access_token := None; refresh_token := None |}
                    (google_sheets copy) in
  let gs1 :=
    if truthy_str (tokens_refresh_token tokens)
    then {| email := email gs; sheet_id := sheet_id gs; sheet_name := sheet_name gs;
            access_token := access_token gs;
            refresh_token := tokens_refresh_token tokens |}
    else gs in
  let gs2 :=
    if truthy_str (tokens_access_token tokens)
    then {| email := email gs1; sheet_id := sheet_id gs1; sheet_name := sheet_name gs1;
            access_token := tokens_access_token tokens;
            refresh_token := refresh_token gs1 |}
    else gs1 in
  {| google_sheets := Some gs2; other_integrations := other_integrations copy |}.

(** [robot.update({ integrations })]: writes the [integrations] column of
    the persisted row of this robot. *)
Definition Robot_update (robotId : string) (i : Integrations) (w : World) : World :=
  set_robots (alter (λ _, {| integrations := Some i |}) robotId (robots w)) w.

(** One firing of the ["tokens"] listener registered by [writeDataToSheet].
    [robot] is the model instance the listener closes over; the listener
    leaves the instance holding the updated integrations. *)
Definition on_tokens (robotId : string) (robot : Robot) (tokens : Tokens) (w : World)
  : Robot * World :=
  let upd := updatedIntegrations (integrations robot) tokens in
  ({| integrations := Some upd |}, Robot_update robotId upd w).

Fixpoint fire_tokens (robotId : string) (robot : Robot) (evs : list Tokens) (w : World)
  : World :=
  match evs with
  | [] => w
  | tokens :: rest =>
      let '(robot', w') := on_tokens robotId robot tokens w in
      fire_tokens robotId robot' rest w'
  end.

(** [sheets.spreadsheets.values.append(request)] through the client that
    carries the listener. The API answers the [n]-th append call of the
    trace as [sheets_api w n] scripts it. *)
Definition values_append (robotId : string) (robot : Robot) (req : AppendRequest)
  : M Z :=
  λ w,
    let n := length (appends (trace w)) in
    let out := sheets_api w n req in
    let w1 := emit (Append req) w in
    (fire_tokens robotId robot (token_events out) w1, response out).

Definition gs_field (f : GoogleSheets → option string) (r : Robot) : option string :=
  i ← integrations r; g ← google_sheets i; f g.

Definition writeDataToSheet (robotId spreadsheetId : string) (data : list (list jsval))
  : M unit :=
  try_catch
    (let* robot := Robot_findOne robotId in
     match robot with
     | None => throw (ErrorObj ("Robot not found for robotId: " +:+ robotId))
     | Some robot =>
         let access_token := gs_field access_token robot in
         let refresh_token := gs_field refresh_token robot in
         if negb (truthy_str access_token) || negb (truthy_str refresh_token)
         then throw (ErrorObj "Google Sheets access not configured for user")
         else
           tell (ConsoleLog ("Attempting to write to spreadsheet: " +:+ spreadsheetId));;
           let* status :=
             values_append robotId robot
               {| spreadsheetId := spreadsheetId;
                  range := "Sheet1!A1";
                  valueInputOption := "USER_ENTERED";
                  values := data |} in
           (if status =? 200
            then tell (ConsoleLog "Data successfully appended to Google Sheet.")
            else tell (ConsoleErrorResponse "Google Sheets append failed:" status));;
           tell (LoggerLog "info" ("Data written to Google Sheet: " +:+ spreadsheetId))
     end)%js
    (λ error,
       let* message := lift (error_message error) in
       tell (LoggerLog "error" ("Error writing data to Google Sheet: " +:+ message));;
       throw error)%js.

(** [data.map(row => Object.values(row))] *)
Definition map_Object_values (data : jsval) : completion (list (list jsval)) :=
  match data with
  | JArr rows => mapM Object_values rows
  | JUndefined | JNull =>
      Throw (TypeError "Cannot read properties of undefined (reading 'map')")
  | _ => Throw (TypeError "data.map is not a function")
  end.

(** The value of [data] chosen from the run's outputs (lines 29-43). *)
Definition select_data (plainRun : Run) : completion jsval :=
  let so := serializableOutput plainRun in
  let bo := binaryOutput plainRun in
  if truthy so && bool_decide (0 < length (own_props so))%nat
  then get_prop so "item-0"
  else if truthy bo && truthy (prop_lookup "item-0" (own_props bo))
  then Normal (JArr [JObj [("Screenshot URL", prop_lookup "item-0" (own_props bo))]])
  else Normal (JArr []).

(** [[headers, ...rows]] (lines 63-67). *)
Definition outputData (data : jsval) : completion (list (list jsval)) :=
  match get_prop data "0" with
  | Throw e => Throw e
  | Normal first =>
      match Object_keys first with
      | Throw e => Throw e
      | Normal headers =>
          match map_Object_values data with
          | Throw e => Throw e
          | Normal rows => Normal ((JStr <$> headers) :: rows)
          end
      end
  end.

Definition updateGoogleSheet (robotId runId : string) : M unit :=
  try_catch
    (let* run := Run_findOne runId in
     match run with
     | None => throw (ErrorObj ("Run not found for runId: " +:+ runId))
     | Some plainRun =>
         if String.eqb (run_status plainRun) "success"
         then
           let* data := lift (select_data plainRun) in
           let* robot := Robot_findOne robotId in
           match robot with
           | None => throw (ErrorObj ("Robot not found for robotId: " +:+ robotId))
           | Some plainRobot =>
               let email := gs_field email plainRobot in
               let spreadsheetId := gs_field sheet_id plainRobot in
               if truthy_str email && truthy_str spreadsheetId
               then
                 let spreadsheetId := default "" spreadsheetId in
                 tell (ConsoleLog ("Preparing to write data to Google Sheet for robot: "
                                   +:+ robotId +:+ ", spreadsheetId: " +:+ spreadsheetId));;
                 let* rows := lift (outputData data) in
                 writeDataToSheet robotId spreadsheetId rows;;
                 tell (ConsoleLog ("Data written to Google Sheet successfully for Robot: "
                                   +:+ robotId +:+ " and Run: " +:+ runId))
               else tell (ConsoleLog "Google Sheets integration not configured.")
           end
         else tell (ConsoleLog "Run status is not success or serializableOutput is missing.")
     end)%js
    (λ error,
       let* message := lift (error_message error) in
       tell (ConsoleError ("Failed to write data to Google Sheet for Robot: " +:+ robotId
                           +:+ " and Run: " +:+ runId +:+ ": " +:+ message)))%js.

(** ** Task registry and update processor *)

Inductive TaskStatus : Type := pending | completed | failed.

Definition status_string (s : TaskStatus) : string :=
  match s with
  | pending => "pending"
  | completed => "completed"
  | failed => "failed"
  end.

Record GoogleSheetUpdateTask : Type := {
  robotId : string;
  runId : string;
  status : TaskStatus;
  retries : Z
}.

Definition MAX_RETRIES : Z := 5.

(** What the processor runs on: the world and the module-level registry
    [googleSheetUpdateTasks]. *)
Record PState : Type := {
  world : World;
  googleSheetUpdateTasks : gmap string GoogleSheetUpdateTask
}.

Definition log (msg : string) (w : World) : World := emit (ConsoleLog msg) w.

(** [googleSheetUpdateTasks[runId].retries += 1] *)
Definition bump_retries (t : GoogleSheetUpdateTask) : GoogleSheetUpdateTask :=
  {| robotId := robotId t; runId := runId t; status := status t;
     retries := retries t + 1 |}.

(** [googleSheetUpdateTasks[runId].status = "failed"] *)
Definition mark_failed (t : GoogleSheetUpdateTask) : GoogleSheetUpdateTask :=
  {| robotId := robotId t; runId := runId t; status := failed;
     retries := retries t |}.

(** The own keys of the registry in the order of its finite-map listing. *)
Definition own_keys (reg : gmap string GoogleSheetUpdateTask) : list string :=
  (map_to_list reg).*1.

Module Processor.
Section WithAttempt.

(** The call awaited inside the [try] of the loop body. The processor is
    written against a callee that may throw; [processGoogleSheetUpdates]
    below instantiates it with [updateGoogleSheet]. *)
Variable attempt : string → string → M unit.

(** The order in which [for (const runId in googleSheetUpdateTasks)] lists
    the own keys of the registry. *)
Variable enumerate : gmap string GoogleSheetUpdateTask → list string.

(** [console.log(`Processing task for runId: ${runId}, status: ${task.status}`)] *)
Definition announce (key : string) (task : GoogleSheetUpdateTask) (w : World) : World :=
  log ("Processing task for runId: " +:+ key +:+ ", status: "
       +:+ status_string (status task)) w.

(** The body of the [for...in] loop for the key [key], lines 178-206.
    A key whose property was deleted before being reached is not
    visited. *)
Definition visit (key : string) (hasPendingTasks : bool) (s : PState)
  : bool * PState :=
  match googleSheetUpdateTasks s !! key with
  | None => (hasPendingTasks, s)
  | Some task =>
      let w1 := announce key task (world s) in
      match status task with
      | pending =>
          match attempt (robotId task) (runId task) w1 with
          | (w2, Normal _) =>
              (true,
               {| world := log ("Successfully updated Google Sheet for runId: " +:+ key) w2;
                  googleSheetUpdateTasks := delete key (googleSheetUpdateTasks s) |})
          | (w2, Throw error) =>
              let w3 := emit (ConsoleErrorThrown
                                ("Failed to update Google Sheets for run "
                                 +:+ runId task +:+ ":") error) w2 in
              if retries task <? MAX_RETRIES then
                let task' := bump_retries task in
                (true,
                 {| world := log ("Retrying task for runId: " +:+ key +:+ ", attempt: "
                                  +:+ pretty (retries task')) w3;
                    googleSheetUpdateTasks := <[key := task']> (googleSheetUpdateTasks s) |})
              else
                (true,
                 {| world := log ("Max retries reached for runId: " +:+ key
                                  +:+ ". Marking task as failed.") w3;
                    googleSheetUpdateTasks :=
                      <[key := mark_failed task]> (googleSheetUpdateTasks s) |})
          end
      | _ => (hasPendingTasks, {| world := w1;
                                  googleSheetUpdateTasks := googleSheetUpdateTasks s |})
      end
  end.

(** The [for...in] loop over a list of keys. *)
Fixpoint scan_keys (keys : list string) (hasPendingTasks : bool) (s : PState)
  : bool * PState :=
  match keys with
  | [] => (hasPendingTasks, s)
  | key :: rest =>
      let '(hasPendingTasks', s') := visit key hasPendingTasks s in
      scan_keys rest hasPendingTasks' s'
  end.

(** One iteration of [while (true)] up to the test of [hasPendingTasks]. *)
Definition scan (s : PState) : bool * PState :=
  scan_keys (enumerate (googleSheetUpdateTasks s)) false s.

Definition exit_loop (s : PState) : PState :=
  {| world := log "No pending tasks. Exiting loop." (world s);
     googleSheetUpdateTasks := googleSheetUpdateTasks s |}.

(** The log line and the [setTimeout(resolve, 5000)] promise awaited
    between two scans. *)
Definition wait (s : PState) : PState :=
  {| world := emit (Sleep 5000)
                (log "Waiting for 5 seconds before checking again..." (world s));
     googleSheetUpdateTasks := googleSheetUpdateTasks s |}.

(** [while (true) { ... }]; [fuel] bounds the number of scans. *)
Fixpoint loop (fuel : nat) (s : PState) : option PState :=
  match fuel with
  | O => None
  | S fuel' =>
      let '(hasPendingTasks, s1) := scan s in
      if negb hasPendingTasks
      then Some (exit_loop s1)
      else loop fuel' (wait s1)
  end.

(** Processor steps: the loop body run on some key, and the two
    registry-neutral actions that close an iteration of the outer loop. *)
Inductive step : PState → PState → Prop :=
| step_visit key hasPendingTasks s : step s (visit key hasPendingTasks s).2
| step_exit s : step s (exit_loop s)
| step_wait s : step s (wait s).

End WithAttempt.
End Processor.

Definition processGoogleSheetUpdates
    (enumerate : gmap string GoogleSheetUpdateTask → list string)
    (fuel : nat) (s : PState) : option PState :=
  Processor.loop updateGoogleSheet enumerate fuel s.

(** ** Vocabulary of the statements *)

(** A computation that never throws a nullish value. *)
Definition never_nullish {A} (m : M A) : Prop := ∀ w, (m w).2 ≠ Throw Nullish.

(** The stored robot has both an access token and a refresh token. *)
Definition has_tokens (robotId : string) (w : World) : bool :=
  match robots w !! robotId with
  | Some robot =>
      truthy_str (gs_field access_token robot) && truthy_str (gs_field refresh_token robot)
  | None => false
  end.

Definition append_of (e : event) : list AppendRequest :=
  match e with Append r => [r] | _ => [] end.

(** The request [writeDataToSheet] sends for a sheet and its rows. *)
Definition append_request (sid : string) (rows : list (list jsval)) : AppendRequest :=
  {| spreadsheetId := sid; range := "Sheet1!A1";
     valueInputOption := "USER_ENTERED"; values := rows |}.

(** The robot has an e-mail, the sheet [sid] and both tokens. *)
Definition configured (robot : Robot) (sid : string) : Prop :=
  truthy_str (gs_field email robot) = true
  ∧ gs_field sheet_id robot = Some sid ∧ sid ≠ ""
  ∧ truthy_str (gs_field access_token robot) = true
  ∧ truthy_str (gs_field refresh_token robot) = true.

(** The integration fields of a robot outside [google_sheets]. *)
Definition other_fields (robot : Robot) : list (string * jsval) :=
  default [] (other_integrations <$> integrations robot).

(** The rows as the specification words them: the keys of the first row,
    then every row read by those keys, in that order. *)
Definition rows_by_header (data : list (list (string * jsval))) : list (list jsval) :=
  match data with
  | [] => []
  | first :: _ =>
      let header := first.*1 in
      (JStr <$> header) :: ((λ row, (λ k, prop_lookup k row) <$> header) <$> data)
  end.

(** ** Sample data *)

Module Sample.
Definition sheets : GoogleSheets :=
  {| email := Some "owner@example.com"; sheet_id := Some "sheet-1";
     sheet_name := Some "Results"; access_token := Some "access-0";
     refresh_token := Some "refresh-0" |}.
Definition robot : Robot :=
  {| integrations := Some {| google_sheets := Some sheets;
                             other_integrations := [("airtable", JStr "base-7")] |} |}.
Definition robot_without_sheet : Robot :=
  {| integrations :=
       Some {| google_sheets :=
                 Some {| email := Some "owner@example.com"; sheet_id := None;
                         sheet_name := None; access_token := Some "access-0";
                         refresh_token := Some "refresh-0" |};
               other_integrations := [] |} |}.
Definition table : list (list (string * jsval)) :=
  [[("a", JNum 1); ("b", JNum 2)]; [("a", JNum 3); ("b", JNum 4)]].
Definition shuffled_table : list (list (string * jsval)) :=
  [[("a", JNum 1); ("b", JNum 2)]; [("b", JNum 4); ("a", JNum 3)]].
Definition run_of (data : list (list (string * jsval))) : Run :=
  {| run_status := "success";
     serializableOutput := JObj [("item-0", JArr (JObj <$> data))];
     binaryOutput := JObj [] |}.
Definition screenshot_run : Run :=
  {| run_status := "success";
     serializableOutput := JObj [];
     binaryOutput := JObj [("item-0", JStr "https://x/y.png")] |}.
Definition api_ok : nat → AppendRequest → ApiOutcome :=
  λ _ _, {| token_events := []; response := Normal 200 |}.
Definition api_down : nat → AppendRequest → ApiOutcome :=
  λ _ _, {| token_events := []; response := Throw (ErrorObj "socket hang up") |}.
Definition world_of (run : Run) (robot : Robot)
    (api : nat → AppendRequest → ApiOutcome) : World :=
  {| runs := {[ "run-1" := run ]}; robots := {[ "robot-1" := robot ]};
     sheets_api := api; trace := [] |}.
Definition task : GoogleSheetUpdateTask :=
  {| robotId := "robot-1"; runId := "run-1"; status := pending; retries := 0 |}.
Definition exhausted_task : GoogleSheetUpdateTask :=
  {| robotId := "robot-1"; runId := "run-1"; status := failed; retries := 5 |}.
Definition state_of (w : World) (t : GoogleSheetUpdateTask) : PState :=
  {| world := w; googleSheetUpdateTasks := {[ "run-1" := t ]} |}.
Definition quiet_world : World :=
  world_of (run_of table) robot api_ok.
Definition failing_attempt : string → string → M unit :=
  λ _ _, throw (ErrorObj "socket hang up").
Definition succeeding_attempt : string → string → M unit :=
  λ _ _, ret tt.
Definition rotated : Tokens :=
  {| tokens_access_token := Some "access-1"; tokens_refresh_token := Some "refresh-1" |}.
End Sample.

(** ** Vocabulary of the further statements *)

(** How many more times the processor can attempt a task: a pending task
    with [r] retries fails at most [MAX_RETRIES + 1 - r] more times (once,
    when [r] is already at the bound) before it is marked failed. *)
Definition attempts_left (t : GoogleSheetUpdateTask) : nat :=
  match status t with
  | pending => Z.to_nat (Z.max 1 (MAX_RETRIES + 1 - retries t))
  | _ => 0
  end.

(** What a sheet writer call may change in the world when it works for the
    robot [robotId]: it appends to the trace, and it rewrites that robot's
    row, and only when the API emits token events. *)
Definition world_frame (robotId : string) (w w' : World) : Prop :=
  runs w' = runs w
  ∧ sheets_api w' = sheets_api w
  ∧ (∃ evs, trace w' = trace w ++ evs)
  ∧ (∀ other, other ≠ robotId → robots w' !! other = robots w !! other)
  ∧ (is_Some (robots w' !! robotId) ↔ is_Some (robots w !! robotId))
  ∧ ((∀ n req, token_events (sheets_api w n req) = []) → robots w' = robots w).

Definition framed {A} (robotId : string) (m : M A) : Prop :=
  ∀ w, world_frame robotId w (m w).1.

Module MoreSample.
Definition shadowed_run : Run :=
  {| run_status := "success";
     serializableOutput := JObj [("item-1", JArr [JObj [("a", JNum 1)]])];
     binaryOutput := JObj [("item-0", JStr "https://x/y.png")] |}.
Definition silent_run : Run :=
  {| run_status := "success";
     serializableOutput := JObj [];
     binaryOutput := JObj [] |}.
Definition failed_run : Run :=
  {| run_status := "failed";
     serializableOutput := JObj [];
     binaryOutput := JObj [] |}.
Definition last_attempt_task : GoogleSheetUpdateTask :=
  {| robotId := "robot-1"; runId := "run-1"; status := pending; retries := 5 |}.
Definition access_only : Tokens :=
  {| tokens_access_token := Some "access-2"; tokens_refresh_token := None |}.
End MoreSample.

(** ** Authentication routes ([server/src/routes/auth.ts])

    The routes that work on the user table alone.  A request body field is
    absent or a string; a string stands for the JavaScript string with the
    same characters, one per code unit, so that [String.length] is
    [.length].  The table is the list of its rows in insertion order; its
    lookups are total, as for the stores above.  What is imported from
    outside the file is a parameter: the two password functions, the token
    signer and the identifier the database gives a new row. *)

Module Auth.

Record User : Type := {
  id : string;
  email : string;
  (** [None] after [user.password = undefined] on an in-memory copy, or
      when the attribute is excluded from the query *)
  password : option string;
  api_key : option string;
  google_sheets_email : option string;
  google_access_token : option string;
  google_refresh_token : option string
}.

(** [req.body] of the two credential routes *)
Record Credentials : Type := {
  body_email : option string;
  body_password : option string
}.

Inductive Cookie : Type :=
| NoCookie
| SetCookie (name value : string)
| ClearCookie (name : string).

Inductive Body : Type :=
| Send (text : string)
| JsonUser (user : User)
| JsonMessage (message : string)
| JsonNotOk (error : string)
| JsonOkUser (user : User)
| JsonApiKey (message : string) (key : option string)
| JsonMessageThrown (message : string) (error : thrown)
| JsonMessageError (message error : string).

Record Response : Type := {
  code : Z;
  cookie : Cookie;
  body : Body
}.

(** [res.status(code).send(text)] and [res.status(code).json(...)] *)
Definition respond (code : Z) (body : Body) : Response :=
  {| code := code; cookie := NoCookie; body := body |}.

(** The rows a response body carries. *)
Definition body_users (b : Body) : list User :=
  match b with
  | JsonUser u | JsonOkUser u => [u]
  | _ => []
  end.

(** The table and the console. A console entry is the text and the error
    object logged with it. *)
Record Db : Type := {
  users : list User;
  console : list (string * thrown)
}.

Definition set_users (us : list User) (db : Db) : Db :=
  {| users := us; console := console db |}.

Definition console_log (text : string) (error : thrown) (db : Db) : Db :=
  {| users := users db; console := console db ++ [(text, error)] |}.

(** [User.findOne({ where: { email } })] *)
Definition findOne_email (e : string) (us : list User) : option User :=
  snd <$> list_find (λ u, email u = e) us.

(** [User.findByPk(id)] *)
Definition findByPk (i : string) (us : list User) : option User :=
  snd <$> list_find (λ u, id u = i) us.

(** [UPDATE users SET api_key = key WHERE id = i] *)
Definition update_api_key (i : string) (key : option string) (us : list User)
  : list User :=
  (λ u, if decide (id u = i)
        then {| id := id u; email := email u; password := password u;
                api_key := key;
                google_sheets_email := google_sheets_email u;
                google_access_token := google_access_token u;
                google_refresh_token := google_refresh_token u |}
        else u) <$> us.

(** The copy of a row without its password. *)
Definition without_password (u : User) : User :=
  {| id := id u; email := email u; password := None; api_key := api_key u;
     google_sheets_email := google_sheets_email u;
     google_access_token := google_access_token u;
     google_refresh_token := google_refresh_token u |}.

(** A route: what it leaves in the table and on the console, and the
    response it sends, or the value its promise is rejected with. *)
Definition Route : Type := Db → Db * completion Response.

(** [try { body } catch (error) { handler }] around a route body *)
Definition try_route (body : Route) (handler : thrown → Route) : Route :=
  λ db, match body db with
        | (db', Throw error) => handler error db'
        | done => done
        end.

Section Routes.

(** [hashPassword] and [comparePassword] of [utils/auth] *)
Variable hashPassword : string → completion string.
Variable comparePassword : string → option string → completion bool.
(** [jwt.sign({ id }, process.env.JWT_SECRET, { expiresIn: '12h' })] called
    at the time [now]: the token records when it was issued and when it
    expires, so it depends on the time as well as on the id *)
Variable jwt_sign : Z → string → completion string.
(** the [id] of the row [User.create] inserts *)
Variable new_id : list User → string.

(** [User.create({ email, password })] *)
Definition User_create (e hashed : string) (us : list User) : User :=
  {| id := new_id us; email := e; password := Some hashed; api_key := None;
     google_sheets_email := None; google_access_token := None;
     google_refresh_token := None |}.

(** [router.post('/register', ...)], lines 14-37; [now] is the time at
    which the request is served *)
Definition register (now : Z) (req : Credentials) : Route :=
  try_route
    (λ db,
       if negb (truthy_str (body_email req))
       then (db, Normal (respond 400 (Send "Email is required")))
       else if negb (truthy_str (body_password req))
               || bool_decide (String.length (default "" (body_password req)) < 6)%nat
       then (db, Normal (respond 400
               (Send "Password is required and must be at least 6 characters")))
       else
         let e := default "" (body_email req) in
         let p := default "" (body_password req) in
         match findOne_email e (users db) with
         | Some _ => (db, Normal (respond 400 (Send "User already exists")))
         | None =>
             match hashPassword p with
             | Throw error => (db, Throw error)
             | Normal hashedPassword =>
                 let user := User_create e hashedPassword (users db) in
                 let db' := set_users (users db ++ [user]) db in
                 match jwt_sign now (id user) with
                 | Throw error => (db', Throw error)
                 | Normal token =>
                     (db', Normal {| code := 200;
                                     cookie := SetCookie "token" token;
                                     body := JsonUser (without_password user) |})
                 end
             end
         end)
    (λ error db,
       match error_message error with
       | Throw error' => (db, Throw error')
       | Normal message =>
           (db, Normal (respond 500 (Send ("Could not register user - " +:+ message))))
       end).

(** [router.post('/login', ...)], lines 39-65; [now] is the time at which
    the request is served *)
Definition login (now : Z) (req : Credentials) : Route :=
  try_route
    (λ db,
       if negb (truthy_str (body_email req)) || negb (truthy_str (body_password req))
       then (db, Normal (respond 400 (Send "Email and password are required")))
       else if bool_decide (String.length (default "" (body_password req)) < 6)%nat
       then (db, Normal (respond 400 (Send "Password must be at least 6 characters")))
       else
         let e := default "" (body_email req) in
         let p := default "" (body_password req) in
         match findOne_email e (users db) with
         | None => (db, Normal (respond 400 (Send "User does not exist")))
         | Some user =>
             match comparePassword p (password user) with
             | Throw error => (db, Throw error)
             | Normal false =>
                 (db, Normal (respond 400 (Send "Invalid email or password")))
             | Normal true =>
                 match jwt_sign now (id user) with
                 | Throw error => (db, Throw error)
                 | Normal token =>
                     (db, Normal {| code := 200;
                                    cookie := SetCookie "token" token;
                                    body := JsonUser (without_password user) |})
                 end
             end
         end)
    (λ error db,
       match error_message error with
       | Throw error' => (db, Throw error')
       | Normal message =>
           (console_log "Could not login user - " error db,
            Normal (respond 400 (Send ("Could not login user - " +:+ message))))
       end).

(** [router.get('/logout', ...)], lines 67-74 *)
Definition logout : Route :=
  try_route
    (λ db, (db, Normal {| code := 200; cookie := ClearCookie "token";
                          body := JsonMessage "Logout successful" |}))
    (λ error db,
       match error_message error with
       | Throw error' => (db, Throw error')
       | Normal message =>
           (db, Normal (respond 500 (Send ("Could not logout user - " +:+ message))))
       end).

(** [router.get('/current-user', ...)], lines 76-93; [req_user] is
    [req.user?.id]. *)
Definition current_user (req_user : option string) : Route :=
  try_route
    (λ db,
       match req_user with
       | None => (db, Normal (respond 401 (JsonNotOk "Unauthorized")))
       | Some uid =>
           match findByPk uid (users db) with
           | None => (db, Normal (respond 404 (JsonNotOk "User not found")))
           | Some user =>
               (db, Normal (respond 200 (JsonOkUser (without_password user))))
           end
       end)
    (λ error db,
       let db' := console_log "Error in current-user route:" error db in
       match error_message error with
       | Throw error' => (db', Throw error')
       | Normal message =>
           (db', Normal (respond 500
                           (JsonNotOk ("Could not fetch current user: " +:+ message))))
       end).

(** [router.post('/generate-api-key', ...)], lines 95-122; the key is read
    with [user.api_key] and written with [user.update]; [genAPIKey] is
    what the call [genAPIKey()] of this request does. *)
Definition generate_api_key (genAPIKey : completion string) (req_user : option string)
  : Route :=
  try_route
    (λ db,
       match req_user with
       | None => (db, Normal (respond 401 (JsonNotOk "Unauthorized")))
       | Some uid =>
           match findByPk uid (users db) with
           | None => (db, Normal (respond 404 (JsonMessage "User not found")))
           | Some user =>
               if truthy_str (api_key user)
               then (db, Normal (respond 400 (JsonMessage "API key already exists")))
               else
                 match genAPIKey with
                 | Throw error => (db, Throw error)
                 | Normal apiKey =>
                     (set_users (update_api_key (id user) (Some apiKey) (users db)) db,
                      Normal (respond 200
                                (JsonApiKey "API key generated successfully"
                                   (Some apiKey))))
                 end
           end
       end)
    (λ error db,
       (db, Normal (respond 500 (JsonMessageThrown "Error generating API key" error)))).

(** [router.get('/api-key', ...)], lines 124-146 *)
Definition get_api_key (req_user : option string) : Route :=
  try_route
    (λ db,
       match req_user with
       | None => (db, Normal (respond 401 (JsonNotOk "Unauthorized")))
       | Some uid =>
           match findByPk uid (users db) with
           | None => (db, Normal (respond 404 (JsonMessage "User not found")))
           | Some user =>
               (db, Normal (respond 200
                              (JsonApiKey "API key fetched successfully"
                                 (if truthy_str (api_key user) then api_key user
                                  else None))))
           end
       end)
    (λ error db,
       (db, Normal (respond 500 (JsonMessageThrown "Error fetching API key" error)))).

(** [router.delete('/delete-api-key', ...)], lines 148-166: [req.user.id]
    is read without a test of [req.user]. *)
Definition delete_api_key (req_user : option string) : Route :=
  try_route
    (λ db,
       match req_user with
       | None =>
           (db, Throw (TypeError "Cannot read properties of undefined (reading 'id')"))
       | Some uid =>
           match findByPk uid (users db) with
           | None => (db, Normal (respond 404 (JsonMessage "User not found")))
           | Some user =>
               if negb (truthy_str (api_key user))
               then (db, Normal (respond 404 (JsonMessage "API Key not found")))
               else
                 (set_users (update_api_key uid None (users db)) db,
                  Normal (respond 200 (JsonMessage "API Key deleted successfully")))
           end
       end)
    (λ error db,
       match error_message error with
       | Throw error' => (db, Throw error')
       | Normal message =>
           (db, Normal (respond 500 (JsonMessageError "Error deleting API key" message)))
       end).

End Routes.
End Auth.

Module AuthSample.
Definition hashPassword (p : string) : completion string := Normal ("hash:" +:+ p).
Definition comparePassword (p : string) (hashed : option string) : completion bool :=
  Normal (bool_decide (hashed = Some ("hash:" +:+ p))).
Definition jwt_sign (now : Z) (i : string) : completion string :=
  Normal ("jwt:" +:+ i +:+ "@" +:+ pretty now).
Definition jwt_down (now : Z) (i : string) : completion string :=
  Throw (ErrorObj "secretOrPrivateKey must have a value").
Definition new_id (us : list Auth.User) : string := pretty (length us).
Definition ada : Auth.Credentials :=
  {| Auth.body_email := Some "ada@example.com"; Auth.body_password := Some "s3cret!" |}.
Definition bob : Auth.Credentials :=
  {| Auth.body_email := Some "bob@example.com"; Auth.body_password := Some "hunter22" |}.
Definition empty : Auth.Db := {| Auth.users := []; Auth.console := [] |}.
Definition row (key : option string) : Auth.User :=
  {| Auth.id := "0"; Auth.email := "ada@example.com";
     Auth.password := Some "hash:s3cret!"; Auth.api_key := key;
     Auth.google_sheets_email := None; Auth.google_access_token := None;
     Auth.google_refresh_token := None |}.
Definition one (key : option string) : Auth.Db :=
  {| Auth.users := [row key]; Auth.console := [] |}.
End AuthSample.

(** * Facts *)

#[local] Arguments String.append : simpl never.
#[local] Arguments fire_tokens : simpl never.
#[local] Arguments appends : simpl never.

(** ** Update processor, for any awaited callee *)

Section ProcessorFacts.
Variable attempt : string → string → M unit.
Local Abbreviation visit := (Processor.visit attempt).
Local Abbreviation scan_keys := (Processor.scan_keys attempt).
Local Abbreviation step := (Processor.step attempt).
Local Abbreviation registry := googleSheetUpdateTasks.

(** The loop body touches no entry but the one of its key. *)
Lemma visit_frame key hp s k :
  k ≠ key → registry (visit key hp s).2 !! k = registry s !! k.
Proof.
  intros Hne. unfold Processor.visit.
  destruct (registry s !! key) as [task|]; [|done].
  destruct (status task); [|done..].
  destruct (attempt _ _ _) as [w2 [[]|e]]; simpl.
  - by rewrite lookup_delete_ne.
  - case_match; simpl; by rewrite lookup_insert_ne.
Qed.

(** What the loop body leaves under its own key. *)
Lemma visit_own key hp s :
  registry (visit key hp s).2 !! key =
  match registry s !! key with
  | None => None
  | Some task =>
      match status task with
      | pending =>
          match (attempt (robotId task) (runId task)
                   (Processor.announce key task (world s))).2 with
          | Normal _ => None
          | Throw _ =>
              if retries task <? MAX_RETRIES
              then Some (bump_retries task) else Some (mark_failed task)
          end
      | _ => Some task
      end
  end.
Proof.
  unfold Processor.visit.
  destruct (registry s !! key) as [task|] eqn:Hk; [|done].
  destruct (status task); [|done..].
  destruct (attempt _ _ _) as [w2 [[]|e]]; simpl.
  - by rewrite lookup_delete_eq.
  - case_match; simpl; by rewrite lookup_insert_eq.
Qed.

Lemma visit_pending key hp s task :
  registry s !! key = Some task → status task = pending →
  (visit key hp s).1 = true.
Proof.
  intros Hk Hp. unfold Processor.visit. rewrite Hk, Hp.
  destruct (attempt _ _ _) as [w2 [[]|e]]; simpl; [done|].
  by case_match.
Qed.

Lemma step_frame_failed s s' k t :
  step s s' → registry s !! k = Some t → status t = failed →
  registry s' !! k = Some t.
Proof.
  intros Hstep Hk Hf. destruct Hstep as [key hp s| |]; [|done..].
  destruct (decide (k = key)) as [->|Hne].
  - by rewrite visit_own, Hk, Hf.
  - by rewrite visit_frame.
Qed.

Lemma step_retries_bounded s s' :
  step s s' →
  (∀ k t, registry s !! k = Some t → retries t ≤ MAX_RETRIES) →
  ∀ k t, registry s' !! k = Some t → retries t ≤ MAX_RETRIES.
Proof.
  intros Hstep Hb k t. destruct Hstep as [key hp s| |]; [|by apply Hb..].
  destruct (decide (k = key)) as [->|Hne].
  - rewrite visit_own.
    destruct (registry s !! key) as [task|] eqn:Hk; [|done].
    specialize (Hb _ _ Hk).
    destruct (status task); [|by intros [= <-]..].
    destruct (attempt _ _ _).2; [done|].
    destruct (Z.ltb_spec (retries task) MAX_RETRIES); intros [= <-]; simpl; lia.
  - rewrite visit_frame by done. apply Hb.
Qed.

Lemma step_no_completed s s' :
  step s s' →
  (∀ k t, registry s !! k = Some t → status t ≠ completed) →
  ∀ k t, registry s' !! k = Some t → status t ≠ completed.
Proof.
  intros Hstep Hb k t. destruct Hstep as [key hp s| |]; [|by apply Hb..].
  destruct (decide (k = key)) as [->|Hne].
  - rewrite visit_own.
    destruct (registry s !! key) as [task|] eqn:Hk; [|done].
    specialize (Hb _ _ Hk).
    destruct (status task) eqn:Hst; [|intros [= <-]; congruence..].
    destruct (attempt _ _ _).2; [done|].
    case_match; intros [= <-]; simpl; congruence.
  - rewrite visit_frame by done. apply Hb.
Qed.

(** A scan, and the whole loop, are sequences of processor steps. *)
Lemma scan_keys_steps keys hp s : rtc step s (scan_keys keys hp s).2.
Proof.
  revert hp s. induction keys as [|key rest IH]; intros hp s; simpl; [done|].
  destruct (visit key hp s) as [hp' s'] eqn:Hv.
  eapply rtc_l; [|apply IH].
  replace s' with (visit key hp s).2 by by rewrite Hv. constructor.
Qed.

Lemma loop_steps enumerate fuel s s' :
  Processor.loop attempt enumerate fuel s = Some s' → rtc step s s'.
Proof.
  revert s. induction fuel as [|fuel IH]; intros s; simpl; [done|].
  destruct (Processor.scan attempt enumerate s) as [hp s1] eqn:Hscan.
  assert (rtc step s s1) as Hs1.
  { replace s1 with (Processor.scan attempt enumerate s).2 by by rewrite Hscan.
    apply scan_keys_steps. }
  destruct hp; simpl.
  - intros Hl. etrans; [exact Hs1|].
    eapply rtc_l; [apply Processor.step_wait|by apply IH].
  - intros [= <-]. eapply rtc_r; [exact Hs1|constructor].
Qed.

Lemma visit_sticky key s : (visit key true s).1 = true.
Proof.
  unfold Processor.visit. destruct (registry s !! key) as [task|]; [|done].
  destruct (status task); [|done..].
  destruct (attempt _ _ _) as [w2 [[]|e]]; simpl; [done|]. by case_match.
Qed.

Lemma scan_keys_sticky keys s : (scan_keys keys true s).1 = true.
Proof.
  revert s. induction keys as [|key rest IH]; intros s; simpl; [done|].
  pose proof (visit_sticky key s) as Hv.
  destruct (visit key true s) as [hp' s']. simpl in Hv. subst hp'. apply IH.
Qed.

(** A visit that meets no pending entry changes nothing but the console. *)
Lemma visit_quiet key hp s :
  (∀ task, registry s !! key = Some task → status task ≠ pending) →
  ∃ lines, visit key hp s =
    (hp, {| world := {| runs := runs (world s); robots := robots (world s);
                        sheets_api := sheets_api (world s);
                        trace := trace (world s) ++ (ConsoleLog <$> lines) |};
            googleSheetUpdateTasks := registry s |}).
Proof.
  intros Hnp. unfold Processor.visit.
  destruct (registry s !! key) as [task|] eqn:Hk.
  - specialize (Hnp _ eq_refl).
    destruct (status task); [done|by eexists [_]..].
  - exists []. simpl. rewrite app_nil_r. by destruct s as [[]].
Qed.

Lemma scan_keys_quiet keys hp s :
  (∀ k t, registry s !! k = Some t → status t ≠ pending) →
  ∃ lines, scan_keys keys hp s =
    (hp, {| world := {| runs := runs (world s); robots := robots (world s);
                        sheets_api := sheets_api (world s);
                        trace := trace (world s) ++ (ConsoleLog <$> lines) |};
            googleSheetUpdateTasks := registry s |}).
Proof.
  revert s. induction keys as [|key rest IH]; intros s Hq; simpl.
  - exists []. simpl. rewrite app_nil_r. by destruct s as [[]].
  - destruct (visit_quiet key hp s) as [l1 ->]; [by eauto|].
    edestruct IH as [l2 ->]; [done|]. simpl.
    exists (l1 ++ l2). by rewrite fmap_app, app_assoc.
Qed.

Lemma scan_keys_found keys hp s key task :
  key ∈ keys → registry s !! key = Some task → status task = pending →
  (scan_keys keys hp s).1 = true.
Proof.
  revert hp s. induction keys as [|k0 rest IH]; intros hp s Hin Hk Hp.
  - by apply elem_of_nil in Hin.
  - simpl. destruct (decide (k0 = key)) as [->|Hne].
    + pose proof (visit_pending key hp s task Hk Hp) as Hv.
      destruct (visit key hp s) as [hp' s']. simpl in Hv. subst hp'.
      apply scan_keys_sticky.
    + apply elem_of_cons in Hin as [?|Hin]; [congruence|].
      pose proof (visit_frame k0 hp s key) as Hfr.
      destruct (visit k0 hp s) as [hp' s']. simpl in Hfr.
      apply (IH hp' s' Hin); [|done]. rewrite Hfr; done.
Qed.

(** With nothing pending the loop leaves after one scan. *)
Lemma loop_quiet enumerate fuel s :
  (∀ k t, registry s !! k = Some t → status t ≠ pending) →
  ∃ s', Processor.loop attempt enumerate (S fuel) s = Some s'
        ∧ registry s' = registry s
        ∧ ∃ lines, trace (world s') = trace (world s) ++ (ConsoleLog <$> lines).
Proof.
  intros Hq. simpl. unfold Processor.scan.
  destruct (scan_keys_quiet (enumerate (registry s)) false s Hq) as [lines ->].
  simpl. eexists. split; [done|]. split; [done|].
  exists (lines ++ ["No pending tasks. Exiting loop."]). simpl.
  by rewrite fmap_app, app_assoc.
Qed.

(** One loop body, for any awaited callee, on a task that is in the
    registry: a pending task
    whose attempt returns is deleted; a pending task whose attempt throws
    with fewer than 5 retries stays pending with one retry more; a pending
    task whose attempt throws with 5 retries or more is marked failed and
    stays in the registry; a failed task is left as it is and the callee is
    not run on it (the visit is the same whatever the callee is). *)
Theorem processor_state_machine key hp s task :
  registry s !! key = Some task →
  let outcome :=
    (attempt (robotId task) (runId task) (Processor.announce key task (world s))).2 in
  let registry' := registry (visit key hp s).2 in
  (status task = pending → outcome = Normal () →
     registry' = delete key (registry s))
  ∧ (status task = pending → (∃ e, outcome = Throw e) → retries task < 5 →
     registry' = <[key := {| robotId := robotId task; runId := runId task;
                             status := pending; retries := retries task + 1 |}]>
                   (registry s))
  ∧ (status task = pending → (∃ e, outcome = Throw e) → 5 ≤ retries task →
     registry' = <[key := {| robotId := robotId task; runId := runId task;
                             status := failed; retries := retries task |}]>
                   (registry s))
  ∧ (status task = failed →
     registry' = registry s
     ∧ ∀ attempt', Processor.visit attempt' key hp s = visit key hp s).
Proof.
  intros Hk outcome registry'. subst outcome registry'.
  unfold Processor.visit. rewrite Hk.
  split; [|split; [|split]].
  - intros Hp Hout. rewrite Hp.
    destruct (attempt _ _ _) as [w2 [[]|e]]; simpl in *; [done|congruence].
  - intros Hp [e He] Hlt. rewrite Hp.
    destruct (attempt _ _ _) as [w2 [[]|e']]; simpl in *; [congruence|].
    destruct (Z.ltb_spec (retries task) MAX_RETRIES) as [_|Hge];
      [|unfold MAX_RETRIES in Hge; lia].
    simpl. unfold bump_retries. by rewrite Hp.
  - intros Hp [e He] Hge. rewrite Hp.
    destruct (attempt _ _ _) as [w2 [[]|e']]; simpl in *; [congruence|].
    destruct (Z.ltb_spec (retries task) MAX_RETRIES) as [Hlt|_];
      [unfold MAX_RETRIES in Hlt; lia|].
    done.
  - intros Hf. by rewrite Hf.
Qed.

(** C4. Along every sequence of processor steps that starts from a
    registry whose tasks have at most 5 retries, every task of the
    registry has at most 5 retries; and a task that is failed is, after any
    sequence of steps, still in the registry, unchanged and hence failed
    and not pending. *)
Theorem retries_bounded_failed_terminal s s' :
  rtc step s s' →
  (∀ k t, registry s !! k = Some t → retries t ≤ 5) →
  (∀ k t, registry s' !! k = Some t → retries t ≤ 5)
  ∧ (∀ k t, registry s !! k = Some t → status t = failed →
       registry s' !! k = Some t ∧ status t ≠ pending).
Proof.
  intros Hsteps. induction Hsteps as [s|s s1 s' Hstep Hsteps IH]; intros Hb.
  - split; [done|]. intros k t Hk Hf. split; [done|congruence].
  - destruct IH as [IHb IHf]; [by eapply step_retries_bounded|].
    split; [done|]. intros k t Hk Hf.
    apply IHf; [|done]. by eapply step_frame_failed.
Qed.

(** C9. A pending task whose attempt returns is gone from the registry
    after that same loop body; and along every sequence of processor steps
    from a registry without completed entries, no entry is completed. *)
Theorem success_removes_no_completed :
  (∀ key hp s task,
     registry s !! key = Some task → status task = pending →
     (attempt (robotId task) (runId task)
        (Processor.announce key task (world s))).2 = Normal () →
     registry (visit key hp s).2 !! key = None)
  ∧ (∀ s s',
       rtc step s s' →
       (∀ k t, registry s !! k = Some t → status t ≠ completed) →
       ∀ k t, registry s' !! k = Some t → status t ≠ completed).
Proof.
  split.
  - intros key hp s task Hk Hp Hok. by rewrite visit_own, Hk, Hp, Hok.
  - intros s s' Hsteps. induction Hsteps as [s|s s1 s' Hstep Hsteps IH]; [done|].
    intros Hb. apply IH. by eapply step_no_completed.
Qed.

(** C6. When the enumeration lists every own key of the registry: if no
    entry is pending, the loop returns after this one scan, with the
    registry (failed entries included) as it was and nothing but console
    lines added to the trace; if some entry is pending, the scan sets
    [hasPendingTasks], and the loop logs, sleeps 5000 ms and scans again. *)
Theorem loop_exits_iff_no_pending enumerate fuel s :
  (∀ reg k, is_Some (reg !! k) → k ∈ enumerate reg) →
  ((∀ k t, registry s !! k = Some t → status t ≠ pending) →
     ∃ s', Processor.loop attempt enumerate (S fuel) s = Some s'
           ∧ registry s' = registry s
           ∧ ∃ lines, trace (world s') = trace (world s) ++ (ConsoleLog <$> lines))
  ∧ ((∃ k t, registry s !! k = Some t ∧ status t = pending) →
     ∃ s1, Processor.scan attempt enumerate s = (true, s1)
           ∧ Processor.loop attempt enumerate (S fuel) s =
             Processor.loop attempt enumerate fuel (Processor.wait s1)
           ∧ trace (world (Processor.wait s1)) =
             trace (world s1)
               ++ [ConsoleLog "Waiting for 5 seconds before checking again...";
                   Sleep 5000]).
Proof.
  intros Henum. split; [apply loop_quiet|].
  intros (k & t & Hk & Hp).
  pose proof (scan_keys_found (enumerate (registry s)) false s k t
                (Henum _ _ (mk_is_Some _ _ Hk)) Hk Hp) as Hfound.
  simpl. unfold Processor.scan in *.
  destruct (scan_keys _ false s) as [hp s1]. simpl in Hfound. subst hp.
  exists s1. split; [done|]. split; [done|].
  simpl. by rewrite <- app_assoc.
Qed.

End ProcessorFacts.

Lemma own_keys_covers (reg : gmap string GoogleSheetUpdateTask) k :
  is_Some (reg !! k) → k ∈ own_keys reg.
Proof.
  intros [t Hk]. unfold own_keys. apply list_elem_of_fmap.
  exists (k, t). split; [done|]. by apply elem_of_map_to_list.
Qed.

Lemma processor_state_machine_witness :
  googleSheetUpdateTasks
    (Processor.visit Sample.failing_attempt "run-1" false
       (Sample.state_of Sample.quiet_world Sample.task)).2
  = <["run-1" := {| robotId := "robot-1"; runId := "run-1";
                    status := pending; retries := 0 + 1 |}]>
      {["run-1" := Sample.task]}.
Proof.
  refine (proj1 (proj2 (processor_state_machine Sample.failing_attempt "run-1" false
                          (Sample.state_of Sample.quiet_world Sample.task)
                          Sample.task _)) _ _ _).
  - reflexivity.
  - reflexivity.
  - eexists. reflexivity.
  - simpl. lia.
Defined.

Lemma retries_bounded_failed_terminal_witness :
  googleSheetUpdateTasks
    (Processor.visit Sample.failing_attempt "run-1" false
       (Sample.state_of Sample.quiet_world Sample.exhausted_task)).2 !! "run-1"
  = Some Sample.exhausted_task.
Proof.
  refine (proj1 (proj2 (retries_bounded_failed_terminal Sample.failing_attempt
                          (Sample.state_of Sample.quiet_world Sample.exhausted_task)
                          _ _ _)
                   "run-1" Sample.exhausted_task _ _)).
  - apply rtc_once. apply (Processor.step_visit _ "run-1" false).
  - intros k t Hk. cbn [googleSheetUpdateTasks Sample.state_of] in Hk.
    apply lookup_singleton_Some in Hk as [_ <-]. simpl. lia.
  - reflexivity.
  - reflexivity.
Defined.

Lemma success_removes_no_completed_witness :
  googleSheetUpdateTasks
    (Processor.visit Sample.succeeding_attempt "run-1" false
       (Sample.state_of Sample.quiet_world Sample.task)).2 !! "run-1" = None.
Proof.
  refine (proj1 (success_removes_no_completed Sample.succeeding_attempt)
            "run-1" false _ Sample.task _ _ _); reflexivity.
Defined.

Lemma loop_exits_iff_no_pending_witness :
  ∃ s',
    Processor.loop Sample.failing_attempt own_keys 1
      (Sample.state_of Sample.quiet_world Sample.exhausted_task) = Some s'
    ∧ googleSheetUpdateTasks s' = {["run-1" := Sample.exhausted_task]}.
Proof.
  destruct (proj1 (loop_exits_iff_no_pending Sample.failing_attempt own_keys 0
                     (Sample.state_of Sample.quiet_world Sample.exhausted_task)
                     own_keys_covers)) as (s' & Hloop & Hreg & _).
  - intros k t Hk. cbn [googleSheetUpdateTasks Sample.state_of] in Hk.
    apply lookup_singleton_Some in Hk as [_ <-]. discriminate.
  - exists s'. split; [exact Hloop|exact Hreg].
Defined.

(** ** Sheet writer *)

Lemma appends_snoc tr e : appends (tr ++ [e]) = appends tr ++ append_of e.
Proof. unfold appends. rewrite omap_app. by destruct e. Qed.

Lemma fire_tokens_trace robotId robot evs w :
  trace (fire_tokens robotId robot evs w) = trace w.
Proof.
  revert robot w. induction evs as [|tokens rest IH]; intros robot w; [done|].
  unfold fire_tokens; fold fire_tokens. simpl. by rewrite IH.
Qed.

Ltac run_js :=
  unfold try_catch, bind, lift, tell, throw, Run_findOne, Robot_findOne,
    values_append, error_message; simpl.

Ltac trace_js :=
  simpl; rewrite ?fire_tokens_trace; simpl;
  rewrite ?appends_snoc; simpl; rewrite ?app_nil_r.

(** [writeDataToSheet] sends one request exactly when the stored robot has
    both tokens, whatever the API answers. *)
Lemma writeDataToSheet_appends robotId sid rows w :
  appends (trace (writeDataToSheet robotId sid rows w).1) =
  appends (trace w) ++ (if has_tokens robotId w then [append_request sid rows] else []).
Proof.
  unfold writeDataToSheet, has_tokens, append_request. run_js.
  destruct (robots w !! robotId) as [robot|] eqn:Hrobot; [|by trace_js].
  destruct (truthy_str (gs_field access_token robot)); [|by trace_js].
  destruct (truthy_str (gs_field refresh_token robot)); [|by trace_js].
  simpl.
  destruct (response _) as [status|[message|]]; [destruct (status =? 200)|..];
    by trace_js.
Qed.

Lemma get_prop_truthy v k :
  truthy v = true → get_prop v k = Normal (prop_lookup k (own_props v)).
Proof. by destruct v. Qed.

(** The access to ["item-0"] is guarded by the truthiness test. *)
Lemma select_data_normal run : ∃ data, select_data run = Normal data.
Proof.
  unfold select_data.
  destruct (truthy (serializableOutput run)) eqn:Hso; cbn [andb].
  - case_bool_decide.
    + rewrite get_prop_truthy; eauto.
    + case_match; eauto.
  - case_match; eauto.
Qed.

Lemma get_prop_not_nullish v k : get_prop v k ≠ Throw Nullish.
Proof. unfold get_prop. by case_match. Qed.

Lemma Object_keys_not_nullish v : Object_keys v ≠ Throw Nullish.
Proof. unfold Object_keys. by case_match. Qed.

Lemma Object_values_not_nullish v : Object_values v ≠ Throw Nullish.
Proof. unfold Object_values. by case_match. Qed.

Lemma mapM_not_nullish {A B} (f : A → completion B) l :
  (∀ x, f x ≠ Throw Nullish) → mapM f l ≠ Throw Nullish.
Proof.
  intros Hf. induction l as [|x l IH]; simpl; [done|].
  specialize (Hf x). destruct (f x) as [y|e]; [|by intros [= ->]].
  destruct (mapM f l); [done|by intros [= ->]].
Qed.

Lemma map_Object_values_not_nullish data : map_Object_values data ≠ Throw Nullish.
Proof.
  destruct data; try done. simpl.
  apply mapM_not_nullish, Object_values_not_nullish.
Qed.

Lemma outputData_not_nullish data : outputData data ≠ Throw Nullish.
Proof.
  unfold outputData.
  pose proof (get_prop_not_nullish data "0") as H1.
  destruct (get_prop data "0") as [first|e]; [|by intros [= ->]].
  pose proof (Object_keys_not_nullish first) as H2.
  destruct (Object_keys first) as [headers|e]; [|by intros [= ->]].
  pose proof (map_Object_values_not_nullish data) as H3.
  destruct (map_Object_values data) as [rows|e]; [done|by intros [= ->]].
Qed.

(** [writeDataToSheet] rethrows what its [catch] received, and what it
    received had a [message]. *)
Lemma writeDataToSheet_never_nullish robotId sid rows :
  never_nullish (writeDataToSheet robotId sid rows).
Proof.
  intros w. unfold writeDataToSheet, try_catch.
  match goal with
  | |- context [match ?b w with _ => _ end] =>
      destruct (b w) as [w' [[]|[message|]]]
  end; done.
Qed.

Lemma updateGoogleSheet_normal robotId runId w :
  (updateGoogleSheet robotId runId w).2 = Normal ().
Proof.
  unfold updateGoogleSheet, try_catch.
  match goal with
  | |- context [match ?b w with _ => _ end] =>
      destruct (b w) as [w' [[]|[message|]]] eqn:Hbody
  end; [done..|].
  exfalso. revert Hbody. run_js.
  destruct (runs w !! runId) as [run|]; [|done].
  case_match; [|done].
  destruct (select_data_normal run) as [data ->].
  destruct (robots w !! robotId) as [robot|]; [|done].
  case_match; [|done].
  pose proof (outputData_not_nullish data) as Hout.
  destruct (outputData data) as [rows|e]; [|congruence].
  match goal with
  | |- context [writeDataToSheet ?a ?b ?c ?w'] =>
      pose proof (writeDataToSheet_never_nullish a b c w') as Hw;
      destruct (writeDataToSheet a b c w') as [w2 [[]|e]]
  end; simpl in *; congruence.
Qed.

Lemma has_tokens_emit robotId e w : has_tokens robotId (emit e w) = has_tokens robotId w.
Proof. done. Qed.

(** The append requests a call of [updateGoogleSheet] adds to the trace. *)
Lemma updateGoogleSheet_appends robotId runId w :
  appends (trace (updateGoogleSheet robotId runId w).1) =
  appends (trace w) ++
    match runs w !! runId, robots w !! robotId with
    | Some run, Some robot =>
        if String.eqb (run_status run) "success"
           && truthy_str (gs_field email robot)
           && truthy_str (gs_field sheet_id robot)
           && has_tokens robotId w
        then
          match select_data run with
          | Normal data =>
              match outputData data with
              | Normal rows => [append_request (default "" (gs_field sheet_id robot)) rows]
              | Throw _ => []
              end
          | Throw _ => []
          end
        else []
    | _, _ => []
    end.
Proof.
  unfold updateGoogleSheet. run_js.
  destruct (runs w !! runId) as [run|]; [|by trace_js].
  destruct (String.eqb (run_status run) "success"); simpl; cycle 1.
  { destruct (robots w !! robotId); by trace_js. }
  destruct (select_data_normal run) as [data ->].
  destruct (robots w !! robotId) as [robot|] eqn:Hrobot; [|by trace_js].
  destruct (truthy_str (gs_field email robot)); simpl; [|by trace_js].
  destruct (truthy_str (gs_field sheet_id robot)); simpl; [|by trace_js].
  destruct (outputData data) as [rows|[message|]]; simpl;
    [|destruct (has_tokens robotId w); by trace_js..].
  match goal with
  | |- context [writeDataToSheet ?a ?b ?c ?w'] =>
      pose proof (writeDataToSheet_appends a b c w') as Hw;
      pose proof (writeDataToSheet_never_nullish a b c w') as Hn;
      destruct (writeDataToSheet a b c w') as [w2 [[]|[message|]]]
  end;
    simpl in Hw, Hn; [| |done];
    trace_js; rewrite Hw, has_tokens_emit; trace_js;
    by destruct (has_tokens robotId w).
Qed.

(** Every request a call sends carries the rows built from the run's
    data; a successful run of a configured robot sends exactly one. *)
Lemma updateGoogleSheet_sends robotId runId w run data rows :
  runs w !! runId = Some run → select_data run = Normal data →
  outputData data = Normal rows →
  ∃ new,
    appends (trace (updateGoogleSheet robotId runId w).1) = appends (trace w) ++ new
    ∧ (∀ req, req ∈ new → values req = rows)
    ∧ (∀ robot sid,
         run_status run = "success" → robots w !! robotId = Some robot →
         configured robot sid → new = [append_request sid rows]).
Proof.
  intros Hrun Hdata Hrows. eexists. split; [apply updateGoogleSheet_appends|].
  rewrite Hrun, Hdata, Hrows. unfold has_tokens.
  destruct (robots w !! robotId) as [robot|]; cycle 1.
  { split; [by intros ? ?%elem_of_nil|done]. }
  split.
  - intros req. case_match; [|by intros ?%elem_of_nil].
    by intros ->%list_elem_of_singleton.
  - intros ? sid Hs [= <-] (He & Hsid & Hne & Ha & Hr).
    rewrite Hs, He, Hsid, Ha, Hr. simpl.
    by destruct (String.eqb_spec sid "").
Qed.

Lemma select_data_structured run props data :
  serializableOutput run = JObj props →
  prop_lookup "item-0" props = JArr data →
  select_data run = Normal (JArr data).
Proof.
  intros Hso Hitem. unfold select_data. rewrite Hso.
  destruct props as [|p props]; [done|].
  rewrite bool_decide_true by (simpl; lia).
  unfold get_prop. cbn [truthy andb is_nullish own_props]. by rewrite Hitem.
Qed.

Lemma select_data_screenshot run bprops url :
  is_nullish (serializableOutput run) = true ∨ own_props (serializableOutput run) = [] →
  binaryOutput run = JObj bprops →
  prop_lookup "item-0" bprops = JStr url → url ≠ "" →
  select_data run = Normal (JArr [JObj [("Screenshot URL", JStr url)]]).
Proof.
  intros Hso Hbo Hitem Hurl. unfold select_data.
  assert (truthy (serializableOutput run)
          && bool_decide (0 < length (own_props (serializableOutput run)))%nat = false)
    as ->.
  { destruct Hso as [Hn | ->]; [by destruct (serializableOutput run)|].
    apply andb_false_r. }
  rewrite Hbo. simpl. rewrite Hitem. simpl.
  by destruct (String.eqb_spec url "").
Qed.

Lemma mapM_Object_values_rows (rows : list (list (string * jsval))) :
  mapM Object_values (JObj <$> rows) = Normal ((λ row, row.*2) <$> rows).
Proof.
  induction rows as [|row rows IH]; [done|].
  rewrite !fmap_cons. cbn [mapM Object_values is_nullish own_props]. by rewrite IH.
Qed.

Lemma outputData_rows first rest :
  outputData (JArr (JObj <$> first :: rest)) =
  Normal ((JStr <$> first.*1) :: ((λ row, row.*2) <$> first :: rest)).
Proof.
  unfold outputData, get_prop, Object_keys, map_Object_values.
  rewrite mapM_Object_values_rows. reflexivity.
Qed.

(** Reading a row by its own keys, in its own key order, lists its values. *)
Lemma prop_lookup_own_keys row :
  NoDup row.*1 → (λ k, prop_lookup k row) <$> row.*1 = row.*2.
Proof.
  induction row as [|[k v] row IH]; [done|].
  rewrite !fmap_cons. cbn [fst snd prop_lookup].
  intros [Hk Hnd]%NoDup_cons. rewrite String.eqb_refl. f_equal.
  rewrite <- IH by done. apply Forall_fmap_ext, Forall_forall.
  intros k' Hk'. destruct (String.eqb_spec k k') as [->|]; done.
Qed.

(** With [updateGoogleSheet] as the callee, a visit deletes a pending entry
    and leaves any other. *)
Lemma visit_updateGoogleSheet key hp s k t :
  googleSheetUpdateTasks (Processor.visit updateGoogleSheet key hp s).2 !! k = Some t →
  googleSheetUpdateTasks s !! k = Some t ∧ (k = key → status t ≠ pending).
Proof.
  destruct (decide (k = key)) as [->|Hne].
  - rewrite visit_own.
    destruct (googleSheetUpdateTasks s !! key) as [task|]; [|done].
    destruct (status task) eqn:Hst; [|intros [= <-]; split; congruence..].
    by rewrite updateGoogleSheet_normal.
  - rewrite visit_frame by done. intros Hk. split; [done|congruence].
Qed.

Lemma scan_keys_updateGoogleSheet keys hp s k t :
  googleSheetUpdateTasks (Processor.scan_keys updateGoogleSheet keys hp s).2 !! k
    = Some t →
  googleSheetUpdateTasks s !! k = Some t ∧ (k ∈ keys → status t ≠ pending).
Proof.
  revert hp s. induction keys as [|key rest IH]; intros hp s; simpl.
  - intros Hk. split; [done|]. by intros ?%elem_of_nil.
  - pose proof (visit_updateGoogleSheet key hp s k t) as Hv.
    destruct (Processor.visit updateGoogleSheet key hp s) as [hp' s1].
    intros [Hk1 Hrest]%IH. destruct (Hv Hk1) as [Hk Hkey].
    split; [done|]. intros [->|Hin]%elem_of_cons; eauto.
Qed.

(** The loop as the source has it returns within two scans: the first one
    deletes every pending entry. *)
Lemma processGoogleSheetUpdates_drains enumerate s :
  (∀ reg k, is_Some (reg !! k) → k ∈ enumerate reg) →
  ∃ s', processGoogleSheetUpdates enumerate 2 s = Some s'
        ∧ ∀ k t, googleSheetUpdateTasks s' !! k = Some t →
                 googleSheetUpdateTasks s !! k = Some t ∧ status t ≠ pending.
Proof.
  intros Henum. unfold processGoogleSheetUpdates.
  assert (∀ k t,
            googleSheetUpdateTasks (Processor.scan updateGoogleSheet enumerate s).2 !! k
              = Some t →
            googleSheetUpdateTasks s !! k = Some t ∧ status t ≠ pending) as Hdrained.
  { intros k t Hk. apply scan_keys_updateGoogleSheet in Hk as [Hk Hp].
    split; [done|]. apply Hp, Henum. by eexists. }
  cbn [Processor.loop].
  destruct (Processor.scan updateGoogleSheet enumerate s) as [[] s1]; simpl in *.
  - destruct (loop_quiet updateGoogleSheet enumerate 0 (Processor.wait s1))
      as (s' & Hloop & Hreg & _).
    { intros k t Hk. by apply Hdrained in Hk as [_ ?]. }
    simpl in Hloop. exists s'. split; [done|]. rewrite Hreg. apply Hdrained.
  - eexists. split; [done|]. apply Hdrained.
Qed.

(** C3. [updateGoogleSheet] returns normally in every world and for every
    robot and run identifier; hence the loop body, run on a pending task,
    takes the success path: it logs the success line after the call and
    deletes the entry, whatever the write did. *)
Theorem updateGoogleSheet_never_throws :
  (∀ robotId runId w, (updateGoogleSheet robotId runId w).2 = Normal ())
  ∧ (∀ key hp s task,
       googleSheetUpdateTasks s !! key = Some task → status task = pending →
       Processor.visit updateGoogleSheet key hp s =
       (true,
        {| world :=
             log ("Successfully updated Google Sheet for runId: " +:+ key)
               (updateGoogleSheet (robotId task) (runId task)
                  (Processor.announce key task (world s))).1;
           googleSheetUpdateTasks := delete key (googleSheetUpdateTasks s) |})).
Proof.
  split; [apply updateGoogleSheet_normal|].
  intros key hp s task Hk Hp. unfold Processor.visit. rewrite Hk, Hp.
  pose proof (updateGoogleSheet_normal (robotId task) (runId task)
                (Processor.announce key task (world s))) as Hn.
  destruct (updateGoogleSheet _ _ _) as [w2 [[]|e]]; simpl in *; [done|congruence].
Qed.

Lemma updateGoogleSheet_never_throws_witness :
  (Processor.visit updateGoogleSheet "run-1" false
     (Sample.state_of (Sample.world_of (Sample.run_of Sample.table) Sample.robot
                         Sample.api_down) Sample.task)).1 = true.
Proof.
  rewrite (proj2 updateGoogleSheet_never_throws "run-1" false _ Sample.task);
    reflexivity.
Defined.

(** C1, on the input where it fails. The run has data, the robot is
    configured and the append call is rejected: the request is sent, the
    registry entry is deleted and no retry is counted. *)
Theorem append_failure_is_swallowed :
  let s := Sample.state_of (Sample.world_of (Sample.run_of Sample.table) Sample.robot
                              Sample.api_down) Sample.task in
  let s' := (Processor.visit updateGoogleSheet "run-1" false s).2 in
  length (appends (trace (world s'))) = 1%nat
  ∧ googleSheetUpdateTasks s' !! "run-1" = None
  ∧ googleSheetUpdateTasks s' !! "run-1" ≠ Some (bump_retries Sample.task).
Proof. vm_compute. by repeat split. Qed.

(** C2, on the inputs where it fails. The run has data, the robot is
    configured and the append call is rejected, so the write fails and the
    failure is logged by [updateGoogleSheet]. A pending task with 0 retries
    is then deleted, not kept pending with 1 retry; a pending task with 5
    retries is deleted as well, not marked failed and kept. *)
Theorem failed_write_skips_retry_accounting :
  let w := Sample.world_of (Sample.run_of Sample.table) Sample.robot Sample.api_down in
  let after t :=
    (Processor.visit updateGoogleSheet "run-1" false (Sample.state_of w t)).2 in
  ConsoleError ("Failed to write data to Google Sheet for Robot: robot-1"
                +:+ " and Run: run-1: socket hang up")
    ∈ trace (world (after Sample.task))
  ∧ googleSheetUpdateTasks (after Sample.task) !! "run-1" = None
  ∧ googleSheetUpdateTasks (after Sample.task) !! "run-1"
    ≠ Some {| robotId := "robot-1"; runId := "run-1"; status := pending; retries := 1 |}
  ∧ googleSheetUpdateTasks (after MoreSample.last_attempt_task) !! "run-1" = None
  ∧ googleSheetUpdateTasks (after MoreSample.last_attempt_task) !! "run-1"
    ≠ Some {| robotId := "robot-1"; runId := "run-1"; status := failed; retries := 5 |}.
Proof.
  intros w after. split; [|split; [|split; [|split]]].
  - apply list_elem_of_In. vm_compute. tauto.
  - by vm_compute.
  - by vm_compute.
  - by vm_compute.
  - by vm_compute.
Qed.

(** C8, amended. For a stored robot without e-mail or without sheet id,
    [updateGoogleSheet] returns normally, sends no append request and adds
    exactly one console line to the trace: the not-configured message when
    the run exists with status ["success"], the run-not-found failure when
    the run is missing, and the not-success message when the run has
    another status. *)
Theorem unconfigured_robot_no_append robotId runId w robot :
  robots w !! robotId = Some robot →
  truthy_str (gs_field email robot) = false
  ∨ truthy_str (gs_field sheet_id robot) = false →
  let r := updateGoogleSheet robotId runId w in
  r.2 = Normal ()
  ∧ appends (trace r.1) = appends (trace w)
  ∧ trace r.1
    = trace w
      ++ [match runs w !! runId with
          | None =>
              ConsoleError ("Failed to write data to Google Sheet for Robot: "
                            +:+ robotId +:+ " and Run: " +:+ runId +:+ ": "
                            +:+ ("Run not found for runId: " +:+ runId))
          | Some run =>
              if String.eqb (run_status run) "success"
              then ConsoleLog "Google Sheets integration not configured."
              else ConsoleLog "Run status is not success or serializableOutput is missing."
          end].
Proof.
  intros Hrobot Hlacks r. subst r.
  assert (truthy_str (gs_field email robot)
          && truthy_str (gs_field sheet_id robot) = false) as Hcond.
  { destruct Hlacks as [-> | ->]; [done|apply andb_false_r]. }
  split; [apply updateGoogleSheet_normal|].
  unfold updateGoogleSheet. run_js.
  destruct (runs w !! runId) as [run|]; [|by trace_js].
  destruct (String.eqb (run_status run) "success"); simpl; [|by trace_js].
  destruct (select_data_normal run) as [data ->].
  rewrite Hrobot, Hcond. by trace_js.
Qed.

Lemma unconfigured_robot_no_append_witness :
  appends (trace (updateGoogleSheet "robot-1" "run-1"
                    (Sample.world_of (Sample.run_of Sample.table)
                       Sample.robot_without_sheet Sample.api_ok)).1) = []
  ∧ trace (updateGoogleSheet "robot-1" "run-1"
             (Sample.world_of (Sample.run_of Sample.table)
                Sample.robot_without_sheet Sample.api_ok)).1
    = [ConsoleLog "Google Sheets integration not configured."].
Proof.
  refine (proj2 (unconfigured_robot_no_append "robot-1" "run-1"
                   (Sample.world_of (Sample.run_of Sample.table)
                      Sample.robot_without_sheet Sample.api_ok)
                   Sample.robot_without_sheet _ _)).
  - reflexivity.
  - right. reflexivity.
Defined.

(** C8 as worded fails: the robot has no sheet id, but the run is missing,
    or is there with another status, and the one line logged is about the
    run; the not-configured line is not logged. *)
Lemma unconfigured_robot_unlogged :
  truthy_str (gs_field sheet_id Sample.robot_without_sheet) = false
  ∧ trace (updateGoogleSheet "robot-1" "run-2"
             (Sample.world_of (Sample.run_of Sample.table)
                Sample.robot_without_sheet Sample.api_ok)).1
    = [ConsoleError ("Failed to write data to Google Sheet for Robot: robot-1"
                     +:+ " and Run: run-2: Run not found for runId: run-2")]
  ∧ (ConsoleLog "Google Sheets integration not configured."
     ∉ trace (updateGoogleSheet "robot-1" "run-2"
                (Sample.world_of (Sample.run_of Sample.table)
                   Sample.robot_without_sheet Sample.api_ok)).1)
  ∧ trace (updateGoogleSheet "robot-1" "run-1"
             (Sample.world_of MoreSample.failed_run
                Sample.robot_without_sheet Sample.api_ok)).1
    = [ConsoleLog "Run status is not success or serializableOutput is missing."]
  ∧ (ConsoleLog "Google Sheets integration not configured."
     ∉ trace (updateGoogleSheet "robot-1" "run-1"
                (Sample.world_of MoreSample.failed_run
                   Sample.robot_without_sheet Sample.api_ok)).1).
Proof.
  assert (trace (updateGoogleSheet "robot-1" "run-2"
                   (Sample.world_of (Sample.run_of Sample.table)
                      Sample.robot_without_sheet Sample.api_ok)).1
          = [ConsoleError ("Failed to write data to Google Sheet for Robot: robot-1"
                           +:+ " and Run: run-2: Run not found for runId: run-2")])
    as Hmissing by (vm_compute; reflexivity).
  assert (trace (updateGoogleSheet "robot-1" "run-1"
                   (Sample.world_of MoreSample.failed_run
                      Sample.robot_without_sheet Sample.api_ok)).1
          = [ConsoleLog "Run status is not success or serializableOutput is missing."])
    as Hfailed by (vm_compute; reflexivity).
  split; [reflexivity|]. split; [exact Hmissing|]. split.
  { rewrite Hmissing. by intros [=]%list_elem_of_singleton. }
  split; [exact Hfailed|].
  rewrite Hfailed. by intros [=]%list_elem_of_singleton.
Qed.

(** C5, amended. For a run whose ["item-0"] output is a non-empty array of
    row objects, every append request of the call carries the key list of
    the first row followed by, for each row, that row's values in that
    row's own key order, and a successful run of a configured robot sends
    exactly that one request. When the keys of the first row are distinct
    and every row has the key list of the first, these are the rows read
    by the header. *)
Theorem structured_rows robotId runId w run props first rest :
  runs w !! runId = Some run →
  serializableOutput run = JObj props →
  prop_lookup "item-0" props = JArr (JObj <$> first :: rest) →
  let rows := (JStr <$> first.*1) :: ((λ row, row.*2) <$> first :: rest) in
  (∃ new,
     appends (trace (updateGoogleSheet robotId runId w).1) = appends (trace w) ++ new
     ∧ (∀ req, req ∈ new → values req = rows)
     ∧ (∀ robot sid,
          run_status run = "success" → robots w !! robotId = Some robot →
          configured robot sid → new = [append_request sid rows]))
  ∧ (NoDup first.*1 → Forall (λ row, row.*1 = first.*1) rest →
     rows = rows_by_header (first :: rest)).
Proof.
  intros Hrun Hso Hitem rows. split.
  - eapply updateGoogleSheet_sends; [done|by eapply select_data_structured|].
    apply outputData_rows.
  - intros Hnd Hsame. subst rows. unfold rows_by_header. f_equal.
    rewrite !fmap_cons. f_equal; [by rewrite prop_lookup_own_keys|].
    apply Forall_fmap_ext. eapply Forall_impl; [exact Hsame|].
    intros row Hrow. simpl. rewrite <- Hrow in *. by rewrite prop_lookup_own_keys.
Qed.

Lemma structured_rows_witness :
  appends (trace (updateGoogleSheet "robot-1" "run-1"
                    (Sample.world_of (Sample.run_of Sample.table) Sample.robot
                       Sample.api_ok)).1)
  = [append_request "sheet-1"
       [[JStr "a"; JStr "b"]; [JNum 1; JNum 2]; [JNum 3; JNum 4]]].
Proof.
  destruct (structured_rows "robot-1" "run-1"
              (Sample.world_of (Sample.run_of Sample.table) Sample.robot Sample.api_ok)
              (Sample.run_of Sample.table) _
              [("a", JNum 1); ("b", JNum 2)] [[("a", JNum 3); ("b", JNum 4)]]
              eq_refl eq_refl eq_refl) as [(new & Happ & _ & Hnew) _].
  rewrite Happ.
  rewrite (Hnew Sample.robot "sheet-1" eq_refl eq_refl); [reflexivity|].
  repeat split. discriminate.
Defined.

(** C5 as worded fails: the second row lists [b] before [a], and its
    values are sent in that order, not in the order of the header. *)
Lemma shuffled_rows_not_by_header :
  ∃ req,
    appends (trace (updateGoogleSheet "robot-1" "run-1"
                      (Sample.world_of (Sample.run_of Sample.shuffled_table)
                         Sample.robot Sample.api_ok)).1) = [req]
    ∧ values req = [[JStr "a"; JStr "b"]; [JNum 1; JNum 2]; [JNum 4; JNum 3]]
    ∧ rows_by_header Sample.shuffled_table
      = [[JStr "a"; JStr "b"]; [JNum 1; JNum 2]; [JNum 3; JNum 4]]
    ∧ values req ≠ rows_by_header Sample.shuffled_table.
Proof.
  eexists. split; [vm_compute; reflexivity|].
  split; [reflexivity|]. split; [reflexivity|].
  vm_compute. intros [=].
Qed.

(** C10. For a run whose [serializableOutput] is absent or has no entries
    and whose [binaryOutput] maps ["item-0"] to a non-empty URL, every
    append request of the call carries the rows
    [[["Screenshot URL"], [url]]], and a successful run of a configured
    robot sends exactly that one request. *)
Theorem screenshot_rows robotId runId w run bprops url :
  runs w !! runId = Some run →
  is_nullish (serializableOutput run) = true ∨ own_props (serializableOutput run) = [] →
  binaryOutput run = JObj bprops →
  prop_lookup "item-0" bprops = JStr url → url ≠ "" →
  ∃ new,
    appends (trace (updateGoogleSheet robotId runId w).1) = appends (trace w) ++ new
    ∧ (∀ req, req ∈ new → values req = [[JStr "Screenshot URL"]; [JStr url]])
    ∧ (∀ robot sid,
         run_status run = "success" → robots w !! robotId = Some robot →
         configured robot sid →
         new = [append_request sid [[JStr "Screenshot URL"]; [JStr url]]]).
Proof.
  intros Hrun Hso Hbo Hitem Hurl.
  eapply updateGoogleSheet_sends; [done|by eapply select_data_screenshot|].
  reflexivity.
Qed.

Lemma screenshot_rows_witness :
  appends (trace (updateGoogleSheet "robot-1" "run-1"
                    (Sample.world_of Sample.screenshot_run Sample.robot
                       Sample.api_ok)).1)
  = [append_request "sheet-1" [[JStr "Screenshot URL"]; [JStr "https://x/y.png"]]].
Proof.
  destruct (screenshot_rows "robot-1" "run-1"
              (Sample.world_of Sample.screenshot_run Sample.robot Sample.api_ok)
              Sample.screenshot_run _ "https://x/y.png"
              eq_refl (or_intror eq_refl) eq_refl eq_refl ltac:(discriminate))
    as (new & Happ & _ & Hnew).
  rewrite Happ.
  rewrite (Hnew Sample.robot "sheet-1" eq_refl eq_refl); [reflexivity|].
  repeat split. discriminate.
Defined.

(** C7. One firing of the ["tokens"] listener, on the instance that is the
    persisted record: afterwards the persisted record holds every token the
    event supplied and keeps every token it did not supply; [sheet_id],
    [email], [sheet_name] and the integration fields outside
    [google_sheets] are as before, and so are the other robots, the runs
    and the trace. *)
Theorem token_refresh_keeps_config robotId robot tokens w :
  robots w !! robotId = Some robot →
  let w' := (on_tokens robotId robot tokens w).2 in
  ∃ robot',
    robots w' !! robotId = Some robot'
    ∧ (∀ token, tokens_refresh_token tokens = Some token → token ≠ "" →
         gs_field refresh_token robot' = Some token)
    ∧ (∀ token, tokens_access_token tokens = Some token → token ≠ "" →
         gs_field access_token robot' = Some token)
    ∧ (truthy_str (tokens_refresh_token tokens) = false →
         gs_field refresh_token robot' = gs_field refresh_token robot)
    ∧ (truthy_str (tokens_access_token tokens) = false →
         gs_field access_token robot' = gs_field access_token robot)
    ∧ gs_field sheet_id robot' = gs_field sheet_id robot
    ∧ gs_field email robot' = gs_field email robot
    ∧ gs_field sheet_name robot' = gs_field sheet_name robot
    ∧ other_fields robot' = other_fields robot
    ∧ (∀ other, other ≠ robotId → robots w' !! other = robots w !! other)
    ∧ runs w' = runs w ∧ trace w' = trace w.
Proof.
  intros Hrobot w'. subst w'. unfold on_tokens, Robot_update. cbn [snd set_robots robots].
  eexists. split; [by rewrite lookup_alter_eq, Hrobot|].
  assert (∀ token, truthy_str (Some token) = true ↔ token ≠ "") as Htruthy.
  { intros token. simpl. destruct (String.eqb_spec token ""); split; done. }
  destruct robot as [[[[gs|] others]|]];
    unfold gs_field, other_fields, updatedIntegrations; simpl.
  all: repeat split; try done.
  all: try (intros token Htok Hne; rewrite Htok;
            apply Htruthy in Hne; rewrite Hne; simpl;
            try (by destruct (truthy_str (tokens_access_token tokens))); done).
  all: try (intros ->; simpl;
            try (by destruct (truthy_str (tokens_access_token tokens))); done).
  all: try (by destruct (truthy_str (tokens_refresh_token tokens)),
                        (truthy_str (tokens_access_token tokens))).
  all: try (intros other Hne; by rewrite lookup_alter_ne).
Qed.

(** The listener runs inside the append call of [writeDataToSheet], on the
    robot that call has just fetched. *)
Lemma values_append_fires_listener robotId robot req w tokens :
  token_events (sheets_api w (length (appends (trace w))) req) = [tokens] →
  robots (values_append robotId robot req w).1
  = robots (on_tokens robotId robot tokens w).2.
Proof. intros Hev. unfold values_append. cbn [fst]. rewrite Hev. reflexivity. Qed.

Lemma token_refresh_keeps_config_witness :
  gs_field refresh_token
    <$> robots (on_tokens "robot-1" Sample.robot Sample.rotated Sample.quiet_world).2
          !! "robot-1"
  = Some (Some "refresh-1").
Proof.
  destruct (token_refresh_keeps_config "robot-1" Sample.robot Sample.rotated
              Sample.quiet_world eq_refl) as (robot' & Hstored & Hrefresh & _).
  rewrite Hstored. simpl. f_equal.
  apply Hrefresh; [reflexivity|discriminate].
Defined.

(** * Further facts *)

(** ** Update processor *)

Section ProcessorMore.
Variable attempt : string → string → M unit.
Local Abbreviation visit := (Processor.visit attempt).
Local Abbreviation scan_keys := (Processor.scan_keys attempt).
Local Abbreviation step := (Processor.step attempt).
Local Abbreviation registry := googleSheetUpdateTasks.

(** Every entry a visit leaves was there before, and is either untouched
    or the visited pending entry after a counted or a final failure. *)
Lemma visit_entry key hp s k t' :
  registry (visit key hp s).2 !! k = Some t' →
  ∃ t, registry s !! k = Some t
       ∧ (t' = t ∧ (k = key → status t ≠ pending)
          ∨ (k = key ∧ status t = pending
             ∧ (t' = bump_retries t ∧ retries t < MAX_RETRIES
                ∨ t' = mark_failed t ∧ MAX_RETRIES ≤ retries t))).
Proof.
  destruct (decide (k = key)) as [->|Hne].
  - rewrite visit_own.
    destruct (registry s !! key) as [task|]; [|done].
    destruct (status task) eqn:Hst;
      [|intros [= <-]; exists task; split; [done|left; split; congruence]..].
    destruct (attempt _ _ _).2; [done|].
    destruct (Z.ltb_spec (retries task) MAX_RETRIES); intros [= <-];
      exists task; (split; [done|]); right; eauto.
  - rewrite visit_frame by done. intros Hk. exists t'. split; [done|].
    left. split; [done|congruence].
Qed.

Lemma visit_settled key hp s k t :
  registry s !! k = Some t → status t ≠ pending →
  registry (visit key hp s).2 !! k = Some t.
Proof.
  intros Hk Hst. destruct (decide (k = key)) as [->|Hne].
  - rewrite visit_own, Hk. by destruct (status t).
  - by rewrite visit_frame.
Qed.

Lemma step_entry s s' k t' :
  step s s' → registry s' !! k = Some t' →
  ∃ t, registry s !! k = Some t
       ∧ robotId t' = robotId t ∧ runId t' = runId t
       ∧ retries t ≤ retries t'
       ∧ (status t' = pending → status t = pending).
Proof.
  intros Hstep Hk.
  destruct Hstep as [key hp s| |]; [|exists t'; repeat split; (done || lia)..].
  apply visit_entry in Hk as (t & Hk & Hcase). exists t. split; [done|].
  destruct Hcase as [[-> _]|(_ & Hp & [[-> _]|[-> _]])]; simpl; repeat split; try done; lia.
Qed.

Lemma step_settled s s' k t :
  step s s' → registry s !! k = Some t → status t ≠ pending →
  registry s' !! k = Some t.
Proof.
  intros Hstep Hk Hst. destruct Hstep as [key hp s| |]; [|done..].
  by apply visit_settled.
Qed.

Lemma steps_settled s s' k t :
  rtc step s s' → registry s !! k = Some t → status t ≠ pending →
  registry s' !! k = Some t.
Proof.
  intros Hsteps. induction Hsteps as [s|s s1 s' Hstep Hsteps IH]; [done|].
  intros Hk Hst. apply IH; [|done]. by eapply step_settled.
Qed.

(** X3. Along every sequence of processor steps, with any callee, an entry
    that is in the registry at the end was in it under the same key at the
    start, with the same [robotId] and [runId] and no more retries than it
    has now; and it is pending only if it was pending: the processor never
    inserts, renames or reopens a task. *)
Theorem steps_never_insert_nor_rename s s' k t' :
  rtc step s s' → registry s' !! k = Some t' →
  ∃ t, registry s !! k = Some t
       ∧ robotId t' = robotId t ∧ runId t' = runId t
       ∧ retries t ≤ retries t'
       ∧ (status t' = pending → status t = pending).
Proof.
  intros Hsteps. revert t'.
  induction Hsteps as [s|s s1 s' Hstep Hsteps IH]; intros t' Hk;
    [exists t'; repeat split; (done || lia)|].
  apply IH in Hk as (t1 & Hk1 & Hr1 & Hu1 & Hn1 & Hp1).
  destruct (step_entry _ _ _ _ Hstep Hk1) as (t & Hk & Hr & Hu & Hn & Hp).
  exists t. repeat split; [done|congruence|congruence|lia|tauto].
Qed.

Lemma visit_attempts_left key hp s k t' :
  registry (visit key hp s).2 !! k = Some t' →
  ∃ t, registry s !! k = Some t
       ∧ (attempts_left t' ≤ attempts_left t)%nat
       ∧ (k = key → (attempts_left t' ≤ pred (attempts_left t))%nat).
Proof.
  intros (t & Hk & Hcase)%visit_entry. exists t. split; [done|].
  unfold attempts_left, MAX_RETRIES in *.
  destruct Hcase as [[-> Hst]|(-> & Hp & [[-> Hlt]|[-> Hge]])]; simpl.
  - split; [done|]. intros Hkey. specialize (Hst Hkey). by destruct (status t).
  - rewrite Hp. split; intros; lia.
  - rewrite Hp. split; intros; lia.
Qed.

Lemma scan_keys_attempts_left keys hp s k t' :
  registry (scan_keys keys hp s).2 !! k = Some t' →
  ∃ t, registry s !! k = Some t
       ∧ (attempts_left t' ≤ attempts_left t)%nat
       ∧ (k ∈ keys → (attempts_left t' ≤ pred (attempts_left t))%nat).
Proof.
  revert hp s. induction keys as [|key rest IH]; intros hp s; simpl.
  - intros Hk. exists t'. split; [done|]. split; [done|]. by intros ?%elem_of_nil.
  - pose proof (visit_attempts_left key hp s k) as Hv.
    destruct (visit key hp s) as [hp' s1].
    intros (t1 & Hk1 & Hle1 & Hin1)%IH.
    destruct (Hv t1 Hk1) as (t & Hk & Hle & Hkey).
    exists t. split; [done|]. split; [lia|].
    intros [->|Hin]%elem_of_cons.
    + specialize (Hkey eq_refl). lia.
    + specialize (Hin1 Hin). lia.
Qed.

Lemma attempts_left_zero t : attempts_left t = 0%nat → status t ≠ pending.
Proof. unfold attempts_left, MAX_RETRIES. destruct (status t); [lia|done..]. Qed.

Lemma loop_bounded enumerate n s :
  (∀ reg k, is_Some (reg !! k) → k ∈ enumerate reg) →
  (∀ k t, registry s !! k = Some t → (attempts_left t ≤ n)%nat) →
  ∃ s', Processor.loop attempt enumerate (S n) s = Some s'.
Proof.
  intros Henum. revert s. induction n as [|n IH]; intros s Hb.
  - destruct (loop_quiet attempt enumerate 0 s) as (s' & Hs' & _); [|by eauto].
    intros k t Hk. apply attempts_left_zero. specialize (Hb _ _ Hk). lia.
  - cbn [Processor.loop].
    assert (∀ k t', registry (Processor.scan attempt enumerate s).2 !! k = Some t' →
                    (attempts_left t' ≤ n)%nat) as Hb1.
    { intros k t' Hk. apply scan_keys_attempts_left in Hk as (t & Hk & _ & Hin).
      specialize (Hb _ _ Hk). specialize (Hin (Henum _ _ (mk_is_Some _ _ Hk))). lia. }
    destruct (Processor.scan attempt enumerate s) as [[] s1]; simpl in *; [|by eauto].
    apply (IH (Processor.wait s1)). exact Hb1.
Qed.

Lemma loop_result_settled enumerate fuel s s' :
  (∀ reg k, is_Some (reg !! k) → k ∈ enumerate reg) →
  Processor.loop attempt enumerate fuel s = Some s' →
  ∀ k t, registry s' !! k = Some t → status t ≠ pending.
Proof.
  intros Henum. revert s. induction fuel as [|fuel IH]; intros s; [done|].
  cbn [Processor.loop].
  destruct (Processor.scan attempt enumerate s) as [hp s1] eqn:Hscan.
  destruct hp; simpl; [apply IH|]. intros [= <-] k t Hk Hp.
  assert (∀ k t, registry s !! k = Some t → status t ≠ pending) as Hq.
  { intros k0 t0 Hk0 Hp0.
    pose proof (scan_keys_found attempt (enumerate (registry s)) false s k0 t0
                  (Henum _ _ (mk_is_Some _ _ Hk0)) Hk0 Hp0) as Hfound.
    unfold Processor.scan in Hscan. rewrite Hscan in Hfound. done. }
  destruct (scan_keys_quiet attempt (enumerate (registry s)) false s Hq) as [lines Hs1].
  unfold Processor.scan in Hscan. rewrite Hs1 in Hscan. injection Hscan as <-.
  simpl in Hk. by apply Hq in Hk.
Qed.

(** X2. Whatever the awaited callee does, when the enumeration lists every
    own key and no task has negative retries, the loop returns within seven
    scans; it returns with no pending entry, and with every entry that was
    not pending at the start still in place. *)
Theorem loop_returns_within_seven_scans enumerate s :
  (∀ reg k, is_Some (reg !! k) → k ∈ enumerate reg) →
  (∀ k t, registry s !! k = Some t → 0 ≤ retries t) →
  ∃ s', Processor.loop attempt enumerate 7 s = Some s'
        ∧ (∀ k t, registry s' !! k = Some t → status t ≠ pending)
        ∧ (∀ k t, registry s !! k = Some t → status t ≠ pending →
                  registry s' !! k = Some t).
Proof.
  intros Henum Hpos.
  destruct (loop_bounded enumerate 6 s Henum) as [s' Hloop].
  { intros k t Hk. specialize (Hpos _ _ Hk). unfold attempts_left, MAX_RETRIES.
    destruct (status t); lia. }
  exists s'. split; [done|]. split.
  - by eapply loop_result_settled.
  - intros k t Hk Hst. eapply steps_settled; [|done..]. by eapply loop_steps.
Qed.
End ProcessorMore.

(** X1. The loop as the source has it, with [updateGoogleSheet] as callee,
    returns within two scans, and the registry it leaves is the registry it
    found without its pending entries. *)
Theorem processGoogleSheetUpdates_keeps_settled_only enumerate s :
  (∀ reg k, is_Some (reg !! k) → k ∈ enumerate reg) →
  ∃ s', processGoogleSheetUpdates enumerate 2 s = Some s'
        ∧ ∀ k t, googleSheetUpdateTasks s' !! k = Some t
                 ↔ googleSheetUpdateTasks s !! k = Some t ∧ status t ≠ pending.
Proof.
  intros Henum.
  destruct (processGoogleSheetUpdates_drains enumerate s Henum) as (s' & Hloop & Hsub).
  exists s'. split; [done|]. intros k t. split; [apply Hsub|].
  intros [Hk Hst]. eapply steps_settled; [|done..].
  by eapply loop_steps.
Qed.

(** ** Sheet writer *)

(** X4. [writeDataToSheet] returns normally exactly when the stored robot
    has both tokens and the append call resolves, with status 200 or any
    other; a missing robot is thrown as the named error, and an error the
    API rejects with is rethrown as it is. *)
Theorem writeDataToSheet_outcome robotId sid rows w :
  let answer :=
    response (sheets_api w (length (appends (trace w))) (append_request sid rows)) in
  ((writeDataToSheet robotId sid rows w).2 = Normal ()
   ↔ has_tokens robotId w = true ∧ ∃ status, answer = Normal status)
  ∧ (robots w !! robotId = None →
     (writeDataToSheet robotId sid rows w).2
     = Throw (ErrorObj ("Robot not found for robotId: " +:+ robotId)))
  ∧ (∀ message,
       has_tokens robotId w = true → answer = Throw (ErrorObj message) →
       (writeDataToSheet robotId sid rows w).2 = Throw (ErrorObj message)).
Proof.
  intros answer. subst answer.
  unfold writeDataToSheet, has_tokens, append_request. run_js.
  destruct (robots w !! robotId) as [robot|] eqn:Hrobot; cycle 1.
  { simpl. split; [|split]; [|done|done]. split; [done|]. by intros [? _]. }
  destruct (truthy_str (gs_field access_token robot)); cycle 1.
  { simpl. split; [|split]; [|done|done]. split; [done|]. by intros [? _]. }
  destruct (truthy_str (gs_field refresh_token robot)); cycle 1.
  { simpl. split; [|split]; [|done|done]. split; [done|]. by intros [? _]. }
  simpl. rewrite appends_snoc. simpl. rewrite app_nil_r.
  destruct (response _) as [status|[message|]]; [destruct (status =? 200)|..]; simpl.
  all: split; [|split]; try done.
  all: try (split; [eauto|done]).
  all: try (split; [done|by intros [_ [? ?]]]).
  all: try (by intros ? _ [= <-]).
Qed.

Lemma mapM_Object_values_inv l rs :
  mapM Object_values l = Normal rs
  ↔ Forall (λ v, is_nullish v = false) l ∧ rs = (λ v, (own_props v).*2) <$> l.
Proof.
  revert rs. induction l as [|v l IH]; intros rs.
  - simpl. split; [by intros [= <-]|by intros [_ ->]].
  - rewrite Forall_cons, fmap_cons. cbn [mapM]. unfold Object_values at 1.
    destruct (is_nullish v) eqn:Hv.
    { split; [done|]. by intros [[? _] _]. }
    destruct (mapM Object_values l) as [rs'|e].
    + destruct (proj1 (IH rs') eq_refl) as [Hall ->].
      split.
      * intros Heq. injection Heq as <-. by split.
      * by intros [_ ->].
    + split; [done|]. intros [[_ Hall] _].
      discriminate (proj2 (IH _) (conj Hall eq_refl)).
Qed.

(** X5. The rows can be built exactly when [data] is a non-empty array
    none of whose elements is [null] or [undefined]; they are then the own
    keys of the first element followed by the own values of each
    element. *)
Theorem outputData_defined_iff data rows :
  outputData data = Normal rows
  ↔ ∃ first rest,
      data = JArr (first :: rest)
      ∧ Forall (λ v, is_nullish v = false) (first :: rest)
      ∧ rows = (JStr <$> (own_props first).*1)
               :: ((λ v, (own_props v).*2) <$> first :: rest).
Proof.
  split.
  - unfold outputData.
    destruct (get_prop data "0") as [first|e] eqn:Hget; [|done].
    destruct (Object_keys first) as [headers|e] eqn:Hkeys; [|done].
    destruct (map_Object_values data) as [rs|e] eqn:Hmap; [|done].
    intros [= <-].
    destruct data as [| | | | |elems|]; try done.
    simpl in Hmap. apply mapM_Object_values_inv in Hmap as [Hall ->].
    destruct elems as [|x rest].
    { simpl in Hget. injection Hget as <-. done. }
    unfold get_prop in Hget. simpl in Hget. injection Hget as <-.
    unfold Object_keys in Hkeys. destruct (is_nullish x); [done|].
    injection Hkeys as <-. by exists x, rest.
  - intros (first & rest & -> & Hall & ->).
    pose proof (proj2 (mapM_Object_values_inv (first :: rest) _) (conj Hall eq_refl))
      as Hmap.
    pose proof Hall as [Hfirst _]%Forall_cons.
    unfold outputData. cbn [map_Object_values]. rewrite Hmap.
    unfold get_prop, Object_keys. simpl. by rewrite Hfirst.
Qed.

(** X6. A call of [updateGoogleSheet] sends no append request or exactly
    one; it sends one exactly when the run exists with status ["success"],
    the robot exists with e-mail, sheet id and both tokens, and the data
    chosen from the run is a non-empty array without [null] or [undefined]
    elements. *)
Theorem updateGoogleSheet_sends_iff robotId runId w :
  ∃ new,
    appends (trace (updateGoogleSheet robotId runId w).1) = appends (trace w) ++ new
    ∧ (new = [] ∨ ∃ req, new = [req])
    ∧ (new ≠ []
       ↔ ∃ run robot sid first rest,
           runs w !! runId = Some run ∧ run_status run = "success"
           ∧ robots w !! robotId = Some robot ∧ configured robot sid
           ∧ select_data run = Normal (JArr (first :: rest))
           ∧ Forall (λ v, is_nullish v = false) (first :: rest)).
Proof.
  eexists. split; [apply updateGoogleSheet_appends|].
  destruct (runs w !! runId) as [run|] eqn:Hrun; cycle 1.
  { split; [by left|]. split; [done|]. by intros (? & ? & ? & ? & ? & ? & _). }
  destruct (robots w !! robotId) as [robot|] eqn:Hrobot; cycle 1.
  { split; [by left|]. split; [done|]. by intros (? & ? & ? & ? & ? & _ & _ & ? & _). }
  unfold has_tokens. rewrite Hrobot.
  destruct (String.eqb_spec (run_status run) "success") as [Hs|Hs]; simpl; cycle 1.
  { split; [by left|]. split; [done|].
    intros (? & ? & ? & ? & ? & [= <-] & ? & _). done. }
  destruct (truthy_str (gs_field email robot)) eqn:He; simpl; cycle 1.
  { split; [by left|]. split; [done|].
    intros (? & ? & ? & ? & ? & _ & _ & [= <-] & (? & _) & _). congruence. }
  destruct (truthy_str (gs_field sheet_id robot)) eqn:Hsid; simpl; cycle 1.
  { split; [by left|]. split; [done|].
    intros (? & ? & sid & ? & ? & _ & _ & [= <-] & (_ & Hs' & Hne & _) & _).
    rewrite Hs' in Hsid. simpl in Hsid. by destruct (String.eqb_spec sid ""). }
  destruct (truthy_str (gs_field access_token robot)) eqn:Ha; simpl; cycle 1.
  { split; [by left|]. split; [done|].
    intros (? & ? & ? & ? & ? & _ & _ & [= <-] & (_ & _ & _ & ? & _) & _). congruence. }
  destruct (truthy_str (gs_field refresh_token robot)) eqn:Hr; simpl; cycle 1.
  { split; [by left|]. split; [done|].
    intros (? & ? & ? & ? & ? & _ & _ & [= <-] & (_ & _ & _ & _ & ?) & _). congruence. }
  destruct (select_data_normal run) as [data Hdata]. rewrite Hdata.
  destruct (outputData data) as [rows|e] eqn:Hout.
  - split; [right; eauto|]. split; [|done]. intros _.
    apply outputData_defined_iff in Hout as (first & rest & -> & Hall & _).
    destruct (gs_field sheet_id robot) as [sid|] eqn:Hsid'; [|done].
    exists run, robot, sid, first, rest. repeat split; try done.
    simpl in Hsid. by destruct (String.eqb_spec sid "").
  - split; [by left|]. split; [done|].
    intros (? & ? & ? & first & rest & [= <-] & _ & _ & _ & Hsel & Hall).
    rewrite Hdata in Hsel. injection Hsel as ->.
    by rewrite (proj2 (outputData_defined_iff _ _)
                  (ex_intro _ first (ex_intro _ rest (conj eq_refl (conj Hall eq_refl)))))
      in Hout.
Qed.

(** When the rows cannot be built, a configured robot's successful run
    costs two console lines and no request. *)
Lemma updateGoogleSheet_bad_data robotId runId w run data message :
  runs w !! runId = Some run →
  select_data run = Normal data → outputData data = Throw (ErrorObj message) →
  appends (trace (updateGoogleSheet robotId runId w).1) = appends (trace w)
  ∧ (∀ robot sid,
       run_status run = "success" → robots w !! robotId = Some robot →
       configured robot sid →
       trace (updateGoogleSheet robotId runId w).1
       = trace w
         ++ [ConsoleLog ("Preparing to write data to Google Sheet for robot: "
                         +:+ robotId +:+ ", spreadsheetId: " +:+ sid);
             ConsoleError ("Failed to write data to Google Sheet for Robot: "
                           +:+ robotId +:+ " and Run: " +:+ runId +:+ ": "
                           +:+ message)]).
Proof.
  intros Hrun Hdata Hout. split.
  - rewrite updateGoogleSheet_appends, Hrun, Hdata, Hout.
    destruct (robots w !! robotId); [|by rewrite app_nil_r].
    case_match; by rewrite app_nil_r.
  - intros robot sid Hs Hrobot (He & Hsid & Hne & _).
    unfold updateGoogleSheet. run_js.
    rewrite Hrun, Hs. simpl. rewrite Hdata, Hrobot, He, Hsid. simpl.
    destruct (String.eqb_spec sid ""); [done|]. simpl. rewrite Hout. simpl.
    by rewrite <- app_assoc.
Qed.

(** X7. A non-empty [serializableOutput] without the key ["item-0"] hides
    the screenshot: whatever [binaryOutput] holds, no request is sent; for a
    successful run of a configured robot the trace gets the preparing line
    and the failure line of the [TypeError] raised by [data[0]]. *)
Theorem missing_item0_shadows_screenshot robotId runId w run props :
  runs w !! runId = Some run →
  serializableOutput run = JObj props → props ≠ [] →
  prop_lookup "item-0" props = JUndefined →
  appends (trace (updateGoogleSheet robotId runId w).1) = appends (trace w)
  ∧ (∀ robot sid,
       run_status run = "success" → robots w !! robotId = Some robot →
       configured robot sid →
       trace (updateGoogleSheet robotId runId w).1
       = trace w
         ++ [ConsoleLog ("Preparing to write data to Google Sheet for robot: "
                         +:+ robotId +:+ ", spreadsheetId: " +:+ sid);
             ConsoleError ("Failed to write data to Google Sheet for Robot: "
                           +:+ robotId +:+ " and Run: " +:+ runId +:+ ": "
                           +:+ "Cannot read properties of undefined (reading '0')")]).
Proof.
  intros Hrun Hso Hne Hitem.
  apply (updateGoogleSheet_bad_data _ _ _ run JUndefined); [done| |done].
  unfold select_data. rewrite Hso. destruct props; [done|].
  rewrite bool_decide_true by (simpl; lia).
  unfold get_prop. cbn [truthy andb is_nullish own_props]. by rewrite Hitem.
Qed.

(** X8. A run with no [serializableOutput] entries and no truthy
    [binaryOutput["item-0"]] sends no request; for a successful run of a
    configured robot the trace gets the preparing line and the failure line
    of the [TypeError] raised by [Object.keys(undefined)]. *)
Theorem no_output_sends_nothing robotId runId w run :
  runs w !! runId = Some run →
  is_nullish (serializableOutput run) = true ∨ own_props (serializableOutput run) = [] →
  truthy (prop_lookup "item-0" (own_props (binaryOutput run))) = false →
  appends (trace (updateGoogleSheet robotId runId w).1) = appends (trace w)
  ∧ (∀ robot sid,
       run_status run = "success" → robots w !! robotId = Some robot →
       configured robot sid →
       trace (updateGoogleSheet robotId runId w).1
       = trace w
         ++ [ConsoleLog ("Preparing to write data to Google Sheet for robot: "
                         +:+ robotId +:+ ", spreadsheetId: " +:+ sid);
             ConsoleError ("Failed to write data to Google Sheet for Robot: "
                           +:+ robotId +:+ " and Run: " +:+ runId +:+ ": "
                           +:+ "Cannot convert undefined or null to object")]).
Proof.
  intros Hrun Hso Hbo.
  apply (updateGoogleSheet_bad_data _ _ _ run (JArr [])); [done| |done].
  unfold select_data.
  assert (truthy (serializableOutput run)
          && bool_decide (0 < length (own_props (serializableOutput run)))%nat = false)
    as ->.
  { destruct Hso as [Hn | ->]; [by destruct (serializableOutput run)|].
    apply andb_false_r. }
  by rewrite Hbo, andb_false_r.
Qed.

Lemma world_frame_refl robotId w : world_frame robotId w w.
Proof. repeat split; try done. exists []. by rewrite app_nil_r. Qed.

Lemma world_frame_trans robotId w1 w2 w3 :
  world_frame robotId w1 w2 → world_frame robotId w2 w3 → world_frame robotId w1 w3.
Proof.
  intros (Hr1 & Ha1 & [e1 Ht1] & Ho1 & Hs1 & Hn1) (Hr2 & Ha2 & [e2 Ht2] & Ho2 & Hs2 & Hn2).
  split; [congruence|]. split; [congruence|].
  split; [exists (e1 ++ e2); by rewrite Ht2, Ht1, app_assoc|].
  split; [intros other Hne; by rewrite Ho2, Ho1|].
  split; [by rewrite Hs2|].
  intros Hquiet. rewrite Hn2, Hn1; [done..|]. by rewrite Ha1.
Qed.

Lemma world_frame_emit robotId e w : world_frame robotId w (emit e w).
Proof. repeat split; try done. by exists [e]. Qed.

Lemma framed_bind {A B} robotId (m : M A) (k : A → M B) :
  framed robotId m → (∀ a, framed robotId (k a)) → framed robotId (bind m k).
Proof.
  intros Hm Hk w. unfold bind. specialize (Hm w).
  destruct (m w) as [w1 [a|e]]; [|done].
  eapply world_frame_trans; [exact Hm|apply Hk].
Qed.

Lemma framed_try_catch {A} robotId (body : M A) (handler : thrown → M A) :
  framed robotId body → (∀ e, framed robotId (handler e)) →
  framed robotId (try_catch body handler).
Proof.
  intros Hm Hk w. unfold try_catch. specialize (Hm w).
  destruct (body w) as [w1 [a|e]]; [done|].
  eapply world_frame_trans; [exact Hm|apply Hk].
Qed.

Lemma framed_pure {A} robotId (c : completion A) : framed robotId (lift c).
Proof. intros w. apply world_frame_refl. Qed.

Lemma framed_throw {A} robotId e : framed robotId (throw (A:=A) e).
Proof. intros w. apply world_frame_refl. Qed.

Lemma framed_tell robotId e : framed robotId (tell e).
Proof. intros w. apply world_frame_emit. Qed.

Lemma world_frame_fire_tokens robotId robot evs w :
  runs (fire_tokens robotId robot evs w) = runs w
  ∧ sheets_api (fire_tokens robotId robot evs w) = sheets_api w
  ∧ trace (fire_tokens robotId robot evs w) = trace w
  ∧ (∀ other, other ≠ robotId →
       robots (fire_tokens robotId robot evs w) !! other = robots w !! other)
  ∧ (is_Some (robots (fire_tokens robotId robot evs w) !! robotId)
     ↔ is_Some (robots w !! robotId)).
Proof.
  revert robot w. induction evs as [|ev evs IH]; intros robot w; [done|].
  unfold fire_tokens; fold fire_tokens. cbn [on_tokens].
  destruct (IH {| integrations := Some (updatedIntegrations (integrations robot) ev) |}
              (Robot_update robotId (updatedIntegrations (integrations robot) ev) w))
    as (Hr & Ha & Ht & Ho & Hs).
  rewrite Hr, Ha, Ht, Hs. do 3 (split; [done|]). split.
  - intros other Hne. rewrite Ho by done. simpl. by rewrite lookup_alter_ne.
  - simpl. rewrite lookup_alter_eq. apply fmap_is_Some.
Qed.

Lemma framed_values_append robotId robot req : framed robotId (values_append robotId robot req).
Proof.
  intros w. unfold values_append. cbn [fst].
  destruct (world_frame_fire_tokens robotId robot
              (token_events (sheets_api w (length (appends (trace w))) req))
              (emit (Append req) w)) as (Hr & Ha & Ht & Ho & Hs).
  split; [done|]. split; [done|]. split; [exists [Append req]; by rewrite Ht|].
  split; [done|]. split; [done|].
  intros Hquiet. by rewrite Hquiet.
Qed.

Lemma framed_writeDataToSheet robotId sid rows :
  framed robotId (writeDataToSheet robotId sid rows).
Proof.
  unfold writeDataToSheet. apply framed_try_catch.
  - apply framed_bind; [intros w; apply world_frame_refl|].
    intros [robot|]; [|apply framed_throw].
    case_match; [apply framed_throw|].
    apply framed_bind; [apply framed_tell|]. intros _.
    apply framed_bind; [apply framed_values_append|]. intros status.
    apply framed_bind; [case_match; apply framed_tell|]. intros _.
    apply framed_tell.
  - intros error. apply framed_bind; [apply framed_pure|]. intros message.
    apply framed_bind; [apply framed_tell|]. intros _. apply framed_throw.
Qed.

(** X9. A call of [updateGoogleSheet] never changes the run store or the
    API, only appends to the trace, leaves every other robot's row as it
    is, neither creates nor deletes the row of its robot, and leaves the
    whole robot store as it is when the API emits no token event. *)
Theorem updateGoogleSheet_frame robotId runId w :
  let w' := (updateGoogleSheet robotId runId w).1 in
  runs w' = runs w
  ∧ sheets_api w' = sheets_api w
  ∧ (∃ evs, trace w' = trace w ++ evs)
  ∧ (∀ other, other ≠ robotId → robots w' !! other = robots w !! other)
  ∧ (is_Some (robots w' !! robotId) ↔ is_Some (robots w !! robotId))
  ∧ ((∀ n req, token_events (sheets_api w n req) = []) → robots w' = robots w).
Proof.
  revert w. change (framed robotId (updateGoogleSheet robotId runId)).
  unfold updateGoogleSheet. apply framed_try_catch.
  - apply framed_bind; [intros w; apply world_frame_refl|].
    intros [run|]; [|apply framed_throw].
    case_match; [|apply framed_tell].
    apply framed_bind; [apply framed_pure|]. intros data.
    apply framed_bind; [intros w; apply world_frame_refl|].
    intros [robot|]; [|apply framed_throw].
    case_match; [|apply framed_tell].
    apply framed_bind; [apply framed_tell|]. intros _.
    apply framed_bind; [apply framed_pure|]. intros rows.
    apply framed_bind; [apply framed_writeDataToSheet|]. intros _.
    apply framed_tell.
  - intros error. apply framed_bind; [apply framed_pure|]. intros message.
    apply framed_tell.
Qed.

Lemma updatedIntegrations_fields cur ev :
  let before := {| integrations := cur |} in
  let after := {| integrations := Some (updatedIntegrations cur ev) |} in
  gs_field sheet_id after = gs_field sheet_id before
  ∧ gs_field email after = gs_field email before
  ∧ gs_field sheet_name after = gs_field sheet_name before
  ∧ other_fields after = other_fields before
  ∧ gs_field refresh_token after
    = (if truthy_str (tokens_refresh_token ev) then tokens_refresh_token ev
       else gs_field refresh_token before)
  ∧ gs_field access_token after
    = (if truthy_str (tokens_access_token ev) then tokens_access_token ev
       else gs_field access_token before).
Proof.
  destruct cur as [[[gs|] others]|];
    unfold gs_field, other_fields, updatedIntegrations; simpl;
    destruct (truthy_str (tokens_refresh_token ev)),
             (truthy_str (tokens_access_token ev)); done.
Qed.

(** X10. Whatever sequence of ["tokens"] events fires during one append
    call for a stored robot, the persisted row keeps its [sheet_id],
    [email], [sheet_name] and the integration fields outside
    [google_sheets]; a refresh token or access token that was stored is
    never lost, and the refresh token is unchanged when no event supplies
    one. *)
Theorem token_events_never_lose_config robotId robot evs w :
  robots w !! robotId = Some robot →
  ∃ robot',
    robots (fire_tokens robotId robot evs w) !! robotId = Some robot'
    ∧ gs_field sheet_id robot' = gs_field sheet_id robot
    ∧ gs_field email robot' = gs_field email robot
    ∧ gs_field sheet_name robot' = gs_field sheet_name robot
    ∧ other_fields robot' = other_fields robot
    ∧ (truthy_str (gs_field refresh_token robot) = true →
       truthy_str (gs_field refresh_token robot') = true)
    ∧ (truthy_str (gs_field access_token robot) = true →
       truthy_str (gs_field access_token robot') = true)
    ∧ (Forall (λ ev, truthy_str (tokens_refresh_token ev) = false) evs →
       gs_field refresh_token robot' = gs_field refresh_token robot).
Proof.
  revert robot w. induction evs as [|ev evs IH]; intros robot w Hrobot.
  - exists robot. by repeat split.
  - unfold fire_tokens; fold fire_tokens. cbn [on_tokens].
    set (robot1 := {| integrations := Some (updatedIntegrations (integrations robot) ev) |}).
    destruct (IH robot1 (Robot_update robotId
                           (updatedIntegrations (integrations robot) ev) w))
      as (robot' & Hstored & Hsid & Hemail & Hname & Hothers & Hrt & Hat & Hquiet).
    { simpl. by rewrite lookup_alter_eq, Hrobot. }
    destruct (updatedIntegrations_fields (integrations robot) ev)
      as (Usid & Uemail & Uname & Uothers & Urt & Uat).
    fold robot1 in Usid, Uemail, Uname, Uothers, Urt, Uat.
    destruct robot as [cur]. simpl in *.
    exists robot'. split; [done|].
    split; [congruence|]. split; [congruence|]. split; [congruence|].
    split; [congruence|]. split; [|split].
    + intros Hold. apply Hrt. rewrite Urt.
      by destruct (truthy_str (tokens_refresh_token ev)) eqn:Hev.
    + intros Hold. apply Hat. rewrite Uat.
      by destruct (truthy_str (tokens_access_token ev)) eqn:Hev.
    + intros [Hev Hrest]%Forall_cons. rewrite Hquiet by done.
      by rewrite Urt, Hev.
Qed.

Lemma updatedIntegrations_idempotent cur ev :
  updatedIntegrations (Some (updatedIntegrations cur ev)) ev = updatedIntegrations cur ev.
Proof.
  destruct cur as [[[gs|] others]|]; unfold updatedIntegrations; simpl;
    destruct (truthy_str (tokens_refresh_token ev)) eqn:Hr,
             (truthy_str (tokens_access_token ev)) eqn:Ha; simpl;
    rewrite ?Hr, ?Ha; try done.
Qed.

(** X11. The same ["tokens"] event fired twice in a row leaves the world
    that firing it once leaves. *)
Theorem token_event_twice_is_once robotId robot ev w :
  fire_tokens robotId robot [ev; ev] w = fire_tokens robotId robot [ev] w.
Proof.
  unfold fire_tokens, on_tokens. cbn [integrations].
  rewrite updatedIntegrations_idempotent.
  unfold Robot_update, set_robots. simpl. f_equal.
  apply map_eq. intros k. destruct (decide (k = robotId)) as [->|Hne].
  - rewrite !lookup_alter_eq. by destruct (robots w !! robotId).
  - by rewrite !lookup_alter_ne.
Qed.

(** ** Authentication routes *)

Section AuthFacts.
Variable hashPassword : string → completion string.
Variable comparePassword : string → option string → completion bool.
Variable jwt_sign : Z → string → completion string.
Variable new_id : list Auth.User → string.
Local Abbreviation register := (Auth.register hashPassword jwt_sign new_id).
Local Abbreviation login := (Auth.login comparePassword jwt_sign).

Lemma findOne_email_Some e us u :
  Auth.findOne_email e us = Some u → u ∈ us ∧ Auth.email u = e.
Proof.
  unfold Auth.findOne_email. intros Hfind.
  apply fmap_Some in Hfind as ([i u'] & Hfind & ->).
  apply list_find_Some in Hfind as (Hi & He & _). split; [|done].
  by eapply list_elem_of_lookup_2.
Qed.

Lemma findOne_email_None e us :
  Auth.findOne_email e us = None ↔ Forall (λ u, Auth.email u ≠ e) us.
Proof.
  unfold Auth.findOne_email. rewrite fmap_None. apply list_find_None.
Qed.

Lemma findOne_email_app_new e us u :
  Auth.findOne_email e us = None → Auth.email u = e →
  Auth.findOne_email e (us ++ [u]) = Some u.
Proof.
  intros Hnone%findOne_email_None He. unfold Auth.findOne_email.
  rewrite list_find_app_r by by apply list_find_None.
  simpl. rewrite decide_True by done. done.
Qed.

(** X12. When [/register] answers 400, the table and console are as
    before, no cookie is set, and the e-mail was missing, or the password
    was missing or shorter than 6, or a row with that e-mail exists. *)
Theorem register_rejection now req db db' resp :
  register now req db = (db', Normal resp) → Auth.code resp = 400 →
  db' = db ∧ Auth.cookie resp = Auth.NoCookie
  ∧ (truthy_str (Auth.body_email req) = false
     ∨ truthy_str (Auth.body_password req) = false
     ∨ (String.length (default "" (Auth.body_password req)) < 6)%nat
     ∨ ∃ u, u ∈ Auth.users db ∧ Some (Auth.email u) = Auth.body_email req).
Proof.
  unfold Auth.register, Auth.try_route.
  destruct (truthy_str (Auth.body_email req)) eqn:He; simpl;
    [|intros [= <- <-] _; eauto].
  destruct (truthy_str (Auth.body_password req)) eqn:Hp; simpl;
    [|intros [= <- <-] _; eauto 6].
  case_bool_decide; [intros [= <- <-] _; eauto 6|].
  destruct (Auth.findOne_email _ _) as [u|] eqn:Hfind.
  { intros [= <- <-] _. apply findOne_email_Some in Hfind as [Hin Hu].
    repeat split; try done. do 3 right. exists u. split; [done|].
    rewrite Hu. by destruct (Auth.body_email req). }
  destruct (hashPassword _) as [hashed|[m|]]; simpl; [|by intros [= <- <-]|done].
  destruct (jwt_sign _ _) as [token|[m|]]; simpl; [|by intros [= <- <-]|done].
  by intros [= <- <-].
Qed.

(** X13. After a [/register] that answered 200, [/login] with the same
    credentials, served at any later time at which [jwt.sign] succeeds,
    answers 200 with the token signed then for the new row's id and with
    the body of the registration response (the same user without
    password), and changes nothing, provided [comparePassword] accepts a
    password against what [hashPassword] made of it. *)
Theorem register_then_login now req db db' resp later token :
  register now req db = (db', Normal resp) → Auth.code resp = 200 →
  (∀ p hashed, hashPassword p = Normal hashed →
               comparePassword p (Some hashed) = Normal true) →
  jwt_sign later (new_id (Auth.users db)) = Normal token →
  login later req db'
  = (db', Normal {| Auth.code := 200; Auth.cookie := Auth.SetCookie "token" token;
                    Auth.body := Auth.body resp |}).
Proof.
  unfold Auth.register, Auth.login, Auth.try_route. intros Hreg Hcode Hbcrypt Hlater.
  destruct (truthy_str (Auth.body_email req)) eqn:He; simpl in *;
    [|by injection Hreg as <- <-].
  destruct (truthy_str (Auth.body_password req)) eqn:Hp; simpl in *;
    [|by injection Hreg as <- <-].
  case_bool_decide; [by injection Hreg as <- <-|].
  destruct (Auth.findOne_email _ (Auth.users db)) as [u|] eqn:Hfind;
    [by injection Hreg as <- <-|].
  destruct (hashPassword _) as [hashed|[m|]] eqn:Hhash; simpl in *;
    [|by injection Hreg as <- <-|done].
  destruct (jwt_sign now _) as [issued|[m|]] eqn:Hsign; simpl in *;
    [|by injection Hreg as <- <-|done].
  injection Hreg as <- <-. simpl.
  rewrite (findOne_email_app_new _ _ (Auth.User_create new_id _ hashed (Auth.users db)))
    by done.
  simpl. rewrite (Hbcrypt _ _ Hhash). simpl. by rewrite Hlater.
Qed.

(** X14. [/register] keeps the e-mails of the table pairwise distinct. *)
Theorem register_keeps_emails_distinct now req db :
  NoDup (Auth.email <$> Auth.users db) →
  NoDup (Auth.email <$> Auth.users (register now req db).1).
Proof.
  intros Hnd. unfold Auth.register, Auth.try_route.
  destruct (truthy_str (Auth.body_email req)); simpl; [|done].
  destruct (truthy_str (Auth.body_password req)); simpl; [|done].
  case_bool_decide; [done|].
  destruct (Auth.findOne_email _ _) as [u|] eqn:Hfind; [done|].
  assert (NoDup (Auth.email <$> Auth.users db
                 ++ [Auth.User_create new_id (default "" (Auth.body_email req))
                       "" (Auth.users db)])) as Hnew.
  { rewrite fmap_app. apply NoDup_app. split; [done|]. split; [|apply NoDup_singleton].
    intros e Hin ->%list_elem_of_singleton.
    apply list_elem_of_fmap in Hin as (u & Hu & Hin).
    apply findOne_email_None in Hfind. rewrite Forall_forall in Hfind.
    by apply (Hfind u Hin). }
  destruct (hashPassword _) as [hashed|[m|]]; simpl; [|done|done].
  destruct (jwt_sign _ _) as [token|[m|]]; simpl; by rewrite fmap_app in *.
Qed.

(** X15. [/login] never changes the user table; and a response that sets a
    cookie is the 200 response for a stored row with the given e-mail whose
    stored password [comparePassword] accepted, carrying the token signed
    for that row's id. *)
Theorem login_reads_only_and_needs_match now req db :
  Auth.users (login now req db).1 = Auth.users db
  ∧ (∀ resp, (login now req db).2 = Normal resp → Auth.cookie resp ≠ Auth.NoCookie →
       ∃ u p token,
         Auth.body_password req = Some p
         ∧ u ∈ Auth.users db ∧ Some (Auth.email u) = Auth.body_email req
         ∧ comparePassword p (Auth.password u) = Normal true
         ∧ jwt_sign now (Auth.id u) = Normal token
         ∧ resp = {| Auth.code := 200; Auth.cookie := Auth.SetCookie "token" token;
                     Auth.body := Auth.JsonUser (Auth.without_password u) |}).
Proof.
  unfold Auth.login, Auth.try_route.
  destruct (truthy_str (Auth.body_email req)) eqn:He; simpl;
    [|split; [done|by intros ? [= <-]]].
  destruct (truthy_str (Auth.body_password req)) eqn:Hp; simpl;
    [|split; [done|by intros ? [= <-]]].
  case_bool_decide; [split; [done|by intros ? [= <-]]|].
  destruct (Auth.findOne_email _ _) as [u|] eqn:Hfind;
    [|split; [done|by intros ? [= <-]]].
  apply findOne_email_Some in Hfind as [Hin Hu].
  destruct (Auth.body_email req) as [e|] eqn:Hbe; [|done].
  destruct (Auth.body_password req) as [p|] eqn:Hbp; [|done]. simpl in *.
  destruct (comparePassword _ _) as [[]|[m|]] eqn:Hcmp; simpl;
    [|split; [done|by intros ? [= <-]]..].
  destruct (jwt_sign _ _) as [token|[m|]] eqn:Hsign; simpl;
    [|split; [done|by intros ? [= <-]]..].
  split; [done|]. intros resp [= <-] _.
  exists u, p, token. repeat split; try done. by rewrite Hu.
Qed.

(** X16. No user object in a response of [/register], [/login] or
    [/current-user] carries a password. *)
Theorem responses_carry_no_password now req req_user db resp u :
  (register now req db).2 = Normal resp
  ∨ (login now req db).2 = Normal resp
  ∨ (Auth.current_user req_user db).2 = Normal resp →
  u ∈ Auth.body_users (Auth.body resp) → Auth.password u = None.
Proof.
  assert (∀ v : Auth.User, u ∈ [Auth.without_password v] → Auth.password u = None)
    as Hblank by by intros v ->%list_elem_of_singleton.
  intros [Hr|[Hl|Hc]]; revert Hr || revert Hl || revert Hc.
  - unfold Auth.register, Auth.try_route.
    destruct (truthy_str (Auth.body_email req)); simpl;
      [|intros [= <-]; by intros ?%elem_of_nil].
    destruct (truthy_str (Auth.body_password req)); simpl;
      [|intros [= <-]; by intros ?%elem_of_nil].
    case_bool_decide; [intros [= <-]; by intros ?%elem_of_nil|].
    destruct (Auth.findOne_email _ _); [intros [= <-]; by intros ?%elem_of_nil|].
    destruct (hashPassword _) as [hashed|[m|]]; simpl;
      [|intros [= <-]; by intros ?%elem_of_nil|done].
    destruct (jwt_sign _ _) as [token|[m|]]; simpl;
      [|intros [= <-]; by intros ?%elem_of_nil|done].
    intros [= <-]. apply Hblank.
  - unfold Auth.login, Auth.try_route.
    destruct (truthy_str (Auth.body_email req)); simpl;
      [|intros [= <-]; by intros ?%elem_of_nil].
    destruct (truthy_str (Auth.body_password req)); simpl;
      [|intros [= <-]; by intros ?%elem_of_nil].
    case_bool_decide; [intros [= <-]; by intros ?%elem_of_nil|].
    destruct (Auth.findOne_email _ _) as [v|]; [|intros [= <-]; by intros ?%elem_of_nil].
    destruct (comparePassword _ _) as [[]|[m|]]; simpl;
      [|intros [= <-]; by intros ?%elem_of_nil..|done].
    destruct (jwt_sign _ _) as [token|[m|]]; simpl;
      [|intros [= <-]; by intros ?%elem_of_nil|done].
    intros [= <-]. apply Hblank.
  - unfold Auth.current_user, Auth.try_route.
    destruct req_user as [uid|]; [|intros [= <-]; by intros ?%elem_of_nil].
    destruct (Auth.findByPk _ _) as [v|]; [|intros [= <-]; by intros ?%elem_of_nil].
    intros [= <-]. apply Hblank.
Qed.

(** X17. When [jwt.sign] throws after [User.create] in [/register], the
    route answers 500 with the error's message, but the account is already
    in the table: the same request sent again answers 400 "User already
    exists". *)
Theorem register_signing_failure_keeps_account now req db e p hashed message :
  Auth.body_email req = Some e → e ≠ "" →
  Auth.body_password req = Some p → (6 ≤ String.length p)%nat →
  Auth.findOne_email e (Auth.users db) = None →
  hashPassword p = Normal hashed →
  jwt_sign now (new_id (Auth.users db)) = Throw (ErrorObj message) →
  ∃ db',
    register now req db
    = (db', Normal (Auth.respond 500 (Auth.Send ("Could not register user - "
                                                +:+ message))))
    ∧ Auth.users db' = Auth.users db ++ [Auth.User_create new_id e hashed (Auth.users db)]
    ∧ register now req db'
      = (db', Normal (Auth.respond 400 (Auth.Send "User already exists"))).
Proof.
  intros He Hne Hp Hlen Hfind Hhash Hsign.
  assert (truthy_str (Some e) = true) as Hte.
  { simpl. by destruct (String.eqb_spec e ""). }
  assert (truthy_str (Some p) = true) as Htp.
  { simpl. destruct (String.eqb_spec p "") as [->|]; [simpl in Hlen; lia|done]. }
  eexists. split; [|split].
  - unfold Auth.register, Auth.try_route. rewrite He, Hp, Hte, Htp. simpl.
    rewrite bool_decide_false by lia. rewrite Hfind, Hhash. simpl.
    rewrite Hsign. simpl. reflexivity.
  - reflexivity.
  - unfold Auth.register, Auth.try_route. rewrite He, Hp, Hte, Htp. simpl.
    rewrite bool_decide_false by lia.
    by rewrite (findOne_email_app_new _ _ (Auth.User_create new_id e hashed (Auth.users db))).
Qed.
End AuthFacts.

(** *** API key routes *)

Lemma findByPk_Some i us u : Auth.findByPk i us = Some u → u ∈ us ∧ Auth.id u = i.
Proof.
  unfold Auth.findByPk. intros Hfind.
  apply fmap_Some in Hfind as ([n u'] & Hfind & ->).
  apply list_find_Some in Hfind as (Hn & Hi & _). split; [|done].
  by eapply list_elem_of_lookup_2.
Qed.

Lemma findByPk_update i j key us :
  Auth.findByPk i (Auth.update_api_key j key us)
  = (λ u, if decide (Auth.id u = j)
          then {| Auth.id := Auth.id u; Auth.email := Auth.email u;
                  Auth.password := Auth.password u; Auth.api_key := key;
                  Auth.google_sheets_email := Auth.google_sheets_email u;
                  Auth.google_access_token := Auth.google_access_token u;
                  Auth.google_refresh_token := Auth.google_refresh_token u |}
          else u) <$> Auth.findByPk i us.
Proof.
  unfold Auth.findByPk, Auth.update_api_key.
  rewrite list_find_fmap, <- !option_fmap_compose.
  erewrite (list_find_ext _ (λ u, Auth.id u = i)); [by destruct (list_find _ us) as [[]|]|].
  intros u. simpl. by case_decide.
Qed.

(** X18. For a stored user without API key and a non-empty generated key:
    [/generate-api-key] answers 200 with the key, [/api-key] then answers
    with that key, and a further [/generate-api-key] answers 400 and
    changes nothing. *)
Theorem generated_key_is_kept uid user key again db :
  Auth.findByPk uid (Auth.users db) = Some user →
  truthy_str (Auth.api_key user) = false → key ≠ "" →
  ∃ db',
    Auth.generate_api_key (Normal key) (Some uid) db
    = (db', Normal (Auth.respond 200
                      (Auth.JsonApiKey "API key generated successfully" (Some key))))
    ∧ Auth.get_api_key (Some uid) db'
      = (db', Normal (Auth.respond 200
                        (Auth.JsonApiKey "API key fetched successfully" (Some key))))
    ∧ Auth.generate_api_key again (Some uid) db'
      = (db', Normal (Auth.respond 400 (Auth.JsonMessage "API key already exists"))).
Proof.
  intros Hfind Hnone Hkey.
  pose proof (findByPk_Some _ _ _ Hfind) as [_ Hid].
  assert (truthy_str (Some key) = true) as Htk.
  { simpl. by destruct (String.eqb_spec key ""). }
  eexists. split; [|split].
  - unfold Auth.generate_api_key, Auth.try_route. by rewrite Hfind, Hnone.
  - unfold Auth.get_api_key, Auth.try_route. cbn [Auth.users Auth.set_users].
    rewrite findByPk_update, Hfind. simpl. rewrite decide_True by done.
    simpl. by destruct (String.eqb_spec key "").
  - unfold Auth.generate_api_key, Auth.try_route. cbn [Auth.users Auth.set_users].
    rewrite findByPk_update, Hfind. simpl. rewrite decide_True by done.
    simpl. by destruct (String.eqb_spec key "").
Qed.

(** X19. For a stored user with an API key: [/delete-api-key] answers 200,
    [/api-key] then answers with [null], a second [/delete-api-key] answers
    404 "API Key not found" and changes nothing, and a key can be generated
    again. *)
Theorem deleted_key_is_gone uid user key db :
  Auth.findByPk uid (Auth.users db) = Some user →
  truthy_str (Auth.api_key user) = true →
  ∃ db',
    Auth.delete_api_key (Some uid) db
    = (db', Normal (Auth.respond 200 (Auth.JsonMessage "API Key deleted successfully")))
    ∧ Auth.get_api_key (Some uid) db'
      = (db', Normal (Auth.respond 200
                        (Auth.JsonApiKey "API key fetched successfully" None)))
    ∧ Auth.delete_api_key (Some uid) db'
      = (db', Normal (Auth.respond 404 (Auth.JsonMessage "API Key not found")))
    ∧ (Auth.generate_api_key (Normal key) (Some uid) db').2
      = Normal (Auth.respond 200
                  (Auth.JsonApiKey "API key generated successfully" (Some key))).
Proof.
  intros Hfind Hsome.
  pose proof (findByPk_Some _ _ _ Hfind) as [_ Hid].
  eexists. split; [|split; [|split]].
  - unfold Auth.delete_api_key, Auth.try_route. by rewrite Hfind, Hsome.
  - unfold Auth.get_api_key, Auth.try_route. cbn [Auth.users Auth.set_users].
    rewrite findByPk_update, Hfind. simpl. by rewrite decide_True by done.
  - unfold Auth.delete_api_key, Auth.try_route. cbn [Auth.users Auth.set_users].
    rewrite findByPk_update, Hfind. simpl. by rewrite decide_True by done.
  - unfold Auth.generate_api_key, Auth.try_route. cbn [Auth.users Auth.set_users].
    rewrite findByPk_update, Hfind. simpl. by rewrite decide_True by done.
Qed.

(** Without [req.user], [/delete-api-key] answers 500 with the
    message of the [TypeError] of reading [req.user.id], where
    [/generate-api-key], [/api-key] and [/current-user] answer 401; none of
    them changes anything. *)
Theorem delete_api_key_lacks_the_guard genAPIKey db :
  Auth.delete_api_key None db
  = (db, Normal (Auth.respond 500
                   (Auth.JsonMessageError "Error deleting API key"
                      "Cannot read properties of undefined (reading 'id')")))
  ∧ Auth.generate_api_key genAPIKey None db
    = (db, Normal (Auth.respond 401 (Auth.JsonNotOk "Unauthorized")))
  ∧ Auth.get_api_key None db
    = (db, Normal (Auth.respond 401 (Auth.JsonNotOk "Unauthorized")))
  ∧ Auth.current_user None db
    = (db, Normal (Auth.respond 401 (Auth.JsonNotOk "Unauthorized"))).
Proof. done. Qed.

Lemma update_api_key_frame i key us :
  Forall2 (λ u u',
             Auth.id u' = Auth.id u ∧ Auth.email u' = Auth.email u
             ∧ Auth.password u' = Auth.password u
             ∧ Auth.google_sheets_email u' = Auth.google_sheets_email u
             ∧ Auth.google_access_token u' = Auth.google_access_token u
             ∧ Auth.google_refresh_token u' = Auth.google_refresh_token u
             ∧ (Auth.id u ≠ i → u' = u))
    us (Auth.update_api_key i key us).
Proof.
  unfold Auth.update_api_key. apply Forall2_fmap_r, Forall_Forall2_diag, Forall_forall.
  intros u _. simpl. destruct (decide (Auth.id u = i)); by repeat split.
Qed.

Lemma same_rows_frame i us :
  Forall2 (λ u u' : Auth.User,
             Auth.id u' = Auth.id u ∧ Auth.email u' = Auth.email u
             ∧ Auth.password u' = Auth.password u
             ∧ Auth.google_sheets_email u' = Auth.google_sheets_email u
             ∧ Auth.google_access_token u' = Auth.google_access_token u
             ∧ Auth.google_refresh_token u' = Auth.google_refresh_token u
             ∧ (Auth.id u ≠ i → u' = u))
    us us.
Proof. apply Forall_Forall2_diag, Forall_forall. by intros u _. Qed.

(** X20. The three API key routes leave the console as it is and keep the
    rows of the table in number and order; each row keeps its id, e-mail,
    password and Google fields, and a row of another user is unchanged. *)
Theorem api_key_routes_touch_one_key genAPIKey uid db db' :
  db' = (Auth.generate_api_key genAPIKey (Some uid) db).1
  ∨ db' = (Auth.delete_api_key (Some uid) db).1
  ∨ db' = (Auth.get_api_key (Some uid) db).1 →
  Auth.console db' = Auth.console db
  ∧ Forall2 (λ u u',
               Auth.id u' = Auth.id u ∧ Auth.email u' = Auth.email u
               ∧ Auth.password u' = Auth.password u
               ∧ Auth.google_sheets_email u' = Auth.google_sheets_email u
               ∧ Auth.google_access_token u' = Auth.google_access_token u
               ∧ Auth.google_refresh_token u' = Auth.google_refresh_token u
               ∧ (Auth.id u ≠ uid → u' = u))
      (Auth.users db) (Auth.users db').
Proof.
  intros [->|[->| ->]].
  - unfold Auth.generate_api_key, Auth.try_route.
    destruct (Auth.findByPk _ _) as [user|] eqn:Hfind;
      [|split; [done|apply same_rows_frame]].
    apply findByPk_Some in Hfind as [_ ->].
    destruct (truthy_str _); [split; [done|apply same_rows_frame]|].
    destruct genAPIKey as [key|e]; simpl;
      [split; [done|apply update_api_key_frame]|split; [done|apply same_rows_frame]].
  - unfold Auth.delete_api_key, Auth.try_route.
    destruct (Auth.findByPk _ _) as [user|] eqn:Hfind;
      [|split; [done|apply same_rows_frame]].
    destruct (truthy_str _); simpl;
      [split; [done|apply update_api_key_frame]|split; [done|apply same_rows_frame]].
  - unfold Auth.get_api_key, Auth.try_route.
    destruct (Auth.findByPk _ _) as [user|];
      split; try done; apply same_rows_frame.
Qed.

(** ** Instances *)

Lemma processGoogleSheetUpdates_keeps_settled_only_witness :
  ∃ s',
    processGoogleSheetUpdates own_keys 2
      (Sample.state_of (Sample.world_of (Sample.run_of Sample.table) Sample.robot
                          Sample.api_down) Sample.task) = Some s'.
Proof.
  destruct (processGoogleSheetUpdates_keeps_settled_only own_keys
              (Sample.state_of (Sample.world_of (Sample.run_of Sample.table)
                                  Sample.robot Sample.api_down) Sample.task)
              own_keys_covers) as (s' & Hloop & _).
  exists s'. exact Hloop.
Defined.

Lemma loop_returns_within_seven_scans_witness :
  ∃ s',
    Processor.loop Sample.failing_attempt own_keys 7
      (Sample.state_of Sample.quiet_world Sample.task) = Some s'.
Proof.
  destruct (loop_returns_within_seven_scans Sample.failing_attempt own_keys
              (Sample.state_of Sample.quiet_world Sample.task) own_keys_covers)
    as (s' & Hloop & _).
  - intros k t Hk. cbn [googleSheetUpdateTasks Sample.state_of] in Hk.
    apply lookup_singleton_Some in Hk as [_ <-]. simpl. lia.
  - exists s'. exact Hloop.
Defined.

Lemma steps_never_insert_nor_rename_witness :
  ∃ t,
    googleSheetUpdateTasks (Sample.state_of Sample.quiet_world Sample.task) !! "run-1"
    = Some t
    ∧ robotId (bump_retries Sample.task) = robotId t.
Proof.
  destruct (steps_never_insert_nor_rename Sample.failing_attempt
              (Sample.state_of Sample.quiet_world Sample.task)
              (Processor.visit Sample.failing_attempt "run-1" false
                 (Sample.state_of Sample.quiet_world Sample.task)).2
              "run-1" (bump_retries Sample.task))
    as (t & Hk & Hrobot & _).
  - apply rtc_once. apply (Processor.step_visit _ "run-1" false).
  - reflexivity.
  - exists t. split; [exact Hk|exact Hrobot].
Defined.

Lemma missing_item0_shadows_screenshot_witness :
  appends (trace (updateGoogleSheet "robot-1" "run-1"
                    (Sample.world_of MoreSample.shadowed_run Sample.robot
                       Sample.api_ok)).1) = [].
Proof.
  refine (proj1 (missing_item0_shadows_screenshot "robot-1" "run-1"
                   (Sample.world_of MoreSample.shadowed_run Sample.robot Sample.api_ok)
                   MoreSample.shadowed_run _ eq_refl eq_refl _ eq_refl)).
  discriminate.
Defined.

Lemma no_output_sends_nothing_witness :
  appends (trace (updateGoogleSheet "robot-1" "run-1"
                    (Sample.world_of MoreSample.silent_run Sample.robot
                       Sample.api_ok)).1) = [].
Proof.
  refine (proj1 (no_output_sends_nothing "robot-1" "run-1"
                   (Sample.world_of MoreSample.silent_run Sample.robot Sample.api_ok)
                   MoreSample.silent_run eq_refl (or_intror eq_refl) eq_refl)).
Defined.

Lemma token_events_never_lose_config_witness :
  ∃ robot',
    robots (fire_tokens "robot-1" Sample.robot [MoreSample.access_only; Sample.rotated]
              Sample.quiet_world) !! "robot-1" = Some robot'
    ∧ gs_field sheet_id robot' = Some "sheet-1".
Proof.
  destruct (token_events_never_lose_config "robot-1" Sample.robot
              [MoreSample.access_only; Sample.rotated] Sample.quiet_world eq_refl)
    as (robot' & Hstored & Hsheet & _).
  exists robot'. split; [exact Hstored|exact Hsheet].
Defined.

Lemma register_rejection_witness :
  Auth.cookie (Auth.respond 400 (Auth.Send "User already exists")) = Auth.NoCookie.
Proof.
  refine (proj1 (proj2 (register_rejection AuthSample.hashPassword AuthSample.jwt_sign
                          AuthSample.new_id 1700000000 AuthSample.ada
                          (AuthSample.one None)
                          (AuthSample.one None) _ _ _))).
  - reflexivity.
  - reflexivity.
Defined.

Lemma register_then_login_witness :
  Auth.login AuthSample.comparePassword AuthSample.jwt_sign 1700000060 AuthSample.ada
    (AuthSample.one None)
  = (AuthSample.one None,
     Normal {| Auth.code := 200;
               Auth.cookie := Auth.SetCookie "token" "jwt:0@1700000060";
               Auth.body := Auth.JsonUser (Auth.without_password (AuthSample.row None)) |}).
Proof.
  apply (register_then_login AuthSample.hashPassword AuthSample.comparePassword
           AuthSample.jwt_sign AuthSample.new_id 1700000000 AuthSample.ada
           AuthSample.empty (AuthSample.one None)
           {| Auth.code := 200;
              Auth.cookie := Auth.SetCookie "token" "jwt:0@1700000000";
              Auth.body := Auth.JsonUser (Auth.without_password (AuthSample.row None)) |}
           1700000060 "jwt:0@1700000060").
  - reflexivity.
  - reflexivity.
  - intros p hashed [= <-]. unfold AuthSample.comparePassword.
    by rewrite bool_decide_true.
  - reflexivity.
Defined.

Lemma register_keeps_emails_distinct_witness :
  NoDup (Auth.email
           <$> Auth.users (Auth.register AuthSample.hashPassword AuthSample.jwt_sign
                             AuthSample.new_id 1700000000 AuthSample.ada
                             (AuthSample.one None)).1)
  ∧ NoDup (Auth.email
             <$> Auth.users (Auth.register AuthSample.hashPassword AuthSample.jwt_sign
                               AuthSample.new_id 1700000000 AuthSample.bob
                               (AuthSample.one None)).1).
Proof.
  split.
  - apply (register_keeps_emails_distinct AuthSample.hashPassword AuthSample.jwt_sign
             AuthSample.new_id 1700000000 AuthSample.ada (AuthSample.one None)).
    apply NoDup_singleton.
  - apply (register_keeps_emails_distinct AuthSample.hashPassword AuthSample.jwt_sign
             AuthSample.new_id 1700000000 AuthSample.bob (AuthSample.one None)).
    apply NoDup_singleton.
Defined.

Lemma responses_carry_no_password_witness :
  Auth.password (Auth.without_password (AuthSample.row None)) = None.
Proof.
  refine (responses_carry_no_password AuthSample.hashPassword AuthSample.comparePassword
            AuthSample.jwt_sign AuthSample.new_id 1700000000 AuthSample.ada None
            AuthSample.empty
            _ _ (or_introl eq_refl) _).
  apply list_elem_of_singleton. reflexivity.
Defined.

Lemma register_signing_failure_keeps_account_witness :
  ∃ db',
    Auth.register AuthSample.hashPassword AuthSample.jwt_down AuthSample.new_id
      1700000000 AuthSample.ada db'
    = (db', Normal (Auth.respond 400 (Auth.Send "User already exists"))).
Proof.
  destruct (register_signing_failure_keeps_account AuthSample.hashPassword
              AuthSample.jwt_down AuthSample.new_id 1700000000 AuthSample.ada
              AuthSample.empty
              "ada@example.com" "s3cret!" "hash:s3cret!"
              "secretOrPrivateKey must have a value")
    as (db' & _ & _ & Hagain); try reflexivity.
  - discriminate.
  - simpl. lia.
  - exists db'. exact Hagain.
Defined.

Lemma generated_key_is_kept_witness :
  ∃ db',
    Auth.get_api_key (Some "0") db'
    = (db', Normal (Auth.respond 200
                      (Auth.JsonApiKey "API key fetched successfully" (Some "key-1")))).
Proof.
  destruct (generated_key_is_kept "0" (AuthSample.row None) "key-1" (Normal "key-2")
              (AuthSample.one None) eq_refl eq_refl)
    as (db' & _ & Hfetch & _).
  - discriminate.
  - exists db'. exact Hfetch.
Defined.

Lemma deleted_key_is_gone_witness :
  ∃ db',
    Auth.get_api_key (Some "0") db'
    = (db', Normal (Auth.respond 200
                      (Auth.JsonApiKey "API key fetched successfully" None))).
Proof.
  destruct (deleted_key_is_gone "0" (AuthSample.row (Some "key-1")) "key-2"
              (AuthSample.one (Some "key-1")) eq_refl eq_refl)
    as (db' & _ & Hfetch & _).
  exists db'. exact Hfetch.
Defined.

Lemma api_key_routes_touch_one_key_witness :
  Auth.console (Auth.delete_api_key (Some "0") (AuthSample.one (Some "key-1"))).1 = [].
Proof.
  refine (proj1 (api_key_routes_touch_one_key (Normal "key-2") "0"
                   (AuthSample.one (Some "key-1")) _ (or_intror (or_introl eq_refl)))).
Defined.
